(** * Prompt library: the in-memory prompt store and its file-backed adapter

    A shallow embedding of [src/services/PromptService.ts] and
    [src/storage/FileStorage.ts], and the proofs of their contracts.

    - [Js]: the fragment of the JavaScript runtime the two classes rely on
      (strings, [parseInt], template literals, [Set], [Array.prototype.sort],
      [slice], plain objects used as string-keyed maps, [Date] parsing);
    - [Types]: the records of [src/types/index.ts] and the
      [StorageProvider] interface;
    - [PromptService]: the store, written against [StorageProvider] in a
      state-and-exception monad, with the mock adapter of its unit tests;
    - [FileStorage]: the adapter, over an explicit file system with faults,
      a clock and a console, for any YAML codec;
    - [Codec]: one concrete codec, to run the adapter on concrete files;
    - [JsFacts], [StoreSpec], [AdapterSpec]: the theorems.

    Modelling conventions.  Text is ASCII: [toLowerCase] lowers [A-Z] only.
    JavaScript numbers that the code uses as counters, limits and offsets are
    integers ([Z]) in the range where IEEE doubles are exact; [NaN] is kept
    where the code can produce it ([parseInt], [Date] parsing).  A property
    that is [undefined] and a property that is missing are both [None].
    What the code draws from outside ([randomUUID()], the clock, the file
    system's failures, the [yaml] package) is an input of the embedding. *)

From Stdlib Require Import String Ascii List ZArith NArith Lia Bool.
From Stdlib Require Import Permutation Sorted DecimalString DecimalN DecimalZ.
Import ListNotations.

#[local] Open Scope string_scope.
#[local] Open Scope list_scope.
#[local] Open Scope Z_scope.

(* ================================================================== *)
(** * The JavaScript runtime fragment *)
(* ================================================================== *)

Module Js.

(** ** Numbers *)

Inductive JsNumber : Type :=
| Num (z : Z)
| NaN.

Definition add (a b : JsNumber) : JsNumber :=
  match a, b with
  | Num x, Num y => Num (x + y)
  | _, _ => NaN
  end.

Definition sub (a b : JsNumber) : JsNumber :=
  match a, b with
  | Num x, Num y => Num (x - y)
  | _, _ => NaN
  end.

(** [String(n)], as a template literal does it. *)
Definition Number_toString (n : JsNumber) : string :=
  match n with
  | NaN => "NaN"
  | Num z => NilZero.string_of_int (Z.to_int z)
  end.

(** The decimal numeral of a natural number. *)
Definition decimal (n : N) : string := Number_toString (Num (Z.of_N n)).

(** ** Strings *)

Definition lower_ascii (c : ascii) : ascii :=
  let n := N_of_ascii c in
  if ((65 <=? n) && (n <=? 90))%N then ascii_of_N (n + 32) else c.

Fixpoint toLowerCase (s : string) : string :=
  match s with
  | EmptyString => EmptyString
  | String c s' => String (lower_ascii c) (toLowerCase s')
  end.

(** [s.includes(sub)] *)
Fixpoint includes (s sub : string) : bool :=
  if String.prefix sub s then true
  else match s with
       | EmptyString => false
       | String _ s' => includes s' sub
       end.

(** [s.startsWith(p)] and [s.endsWith(p)] *)
Definition startsWith (s p : string) : bool := String.prefix p s.

Definition endsWith (s p : string) : bool :=
  let ls := String.length s in
  let lp := String.length p in
  (lp <=? ls)%nat && String.eqb (String.substring (ls - lp) lp s) p.

(** [s.split(sep)] for a one-character separator; never empty. *)
Fixpoint split (sep : ascii) (s : string) : list string :=
  match s with
  | EmptyString => [EmptyString]
  | String c s' =>
      if Ascii.eqb c sep then EmptyString :: split sep s'
      else match split sep s' with
           | h :: t => String c h :: t
           | [] => [String c EmptyString]
           end
  end.

(** [s.replace(/[:.]/g, '-')] *)
Fixpoint replace_colon_dot (s : string) : string :=
  match s with
  | EmptyString => EmptyString
  | String c s' =>
      String (if Ascii.eqb c ":" || Ascii.eqb c "." then "-"%char else c)
             (replace_colon_dot s')
  end.

(** Truthiness of a string and of an optional string. *)
Definition truthy (s : string) : bool := negb (String.eqb s "").

Definition truthy_opt (o : option string) : bool :=
  match o with
  | Some s => truthy s
  | None => false
  end.

(** ** parseInt(s, 10) *)

Definition is_space (c : ascii) : bool :=
  let n := N_of_ascii c in
  ((9 <=? n) && (n <=? 13) || (n =? 32))%N.

Fixpoint trimStart (s : string) : string :=
  match s with
  | String c s' => if is_space c then trimStart s' else s
  | EmptyString => EmptyString
  end.

Definition digit_of_char (c : ascii) : option (Decimal.uint -> Decimal.uint) :=
  match c with
  | "0" => Some Decimal.D0
  | "1" => Some Decimal.D1
  | "2" => Some Decimal.D2
  | "3" => Some Decimal.D3
  | "4" => Some Decimal.D4
  | "5" => Some Decimal.D5
  | "6" => Some Decimal.D6
  | "7" => Some Decimal.D7
  | "8" => Some Decimal.D8
  | "9" => Some Decimal.D9
  | _ => None
  end%char.

(** The longest prefix of decimal digits. *)
Fixpoint digits_prefix (s : string) : Decimal.uint :=
  match s with
  | EmptyString => Decimal.Nil
  | String c s' =>
      match digit_of_char c with
      | Some d => d (digits_prefix s')
      | None => Decimal.Nil
      end
  end.

Definition unsigned_digits (s : string) : JsNumber :=
  match digits_prefix s with
  | Decimal.Nil => NaN
  | d => Num (Z.of_uint d)
  end.

Definition negate (n : JsNumber) : JsNumber :=
  match n with
  | Num z => Num (- z)
  | NaN => NaN
  end.

Definition parseInt (s : string) : JsNumber :=
  match trimStart s with
  | String "-" r => negate (unsigned_digits r)
  | String "+" r => unsigned_digits r
  | r => unsigned_digits r
  end.

(** ** Arrays *)

(** [new Set(xs)] keeps insertion order; [[...new Set(xs)]] reads it back. *)
Definition Set_add (acc : list string) (x : string) : list string :=
  if existsb (String.eqb x) acc then acc else acc ++ [x].

Definition unique (xs : list string) : list string := fold_left Set_add xs [].

(** [xs.slice(start, end)] with the relative-index rule for negatives. *)
Definition relative_index (len i : Z) : Z :=
  if i <? 0 then Z.max (len + i) 0 else Z.min i len.

Definition slice {A : Type} (xs : list A) (start stop : Z) : list A :=
  let len := Z.of_nat (List.length xs) in
  let k := relative_index len start in
  let final := relative_index len stop in
  firstn (Z.to_nat (final - k)) (skipn (Z.to_nat k) xs).

(** [xs.sort(cmp)]: a stable sort; a comparator result of [NaN] counts as 0. *)
Section Sort.
Context {A : Type} (cmp : A -> A -> JsNumber).

Definition SortCompare (x y : A) : Z :=
  match cmp x y with
  | Num z => z
  | NaN => 0
  end.

Fixpoint insert (x : A) (xs : list A) : list A :=
  match xs with
  | [] => [x]
  | y :: ys => if SortCompare x y <=? 0 then x :: xs else y :: insert x ys
  end.

Definition sort (xs : list A) : list A := fold_right insert [] xs.
End Sort.

(** [xs.sort()] on strings: code-unit order. *)
Definition sort_strings (xs : list string) : list string :=
  sort (fun a b => match String.compare a b with
                   | Lt => Num (-1)
                   | Eq => Num 0
                   | Gt => Num 1
                   end) xs.

(** ** Plain objects used as string-keyed maps

    Own properties in creation order, as [Object.values] and
    [Object.entries] enumerate them.  Keys here are identifiers (UUIDs), none
    of which is an array index or a name on [Object.prototype]. *)

Definition JsObject (V : Type) : Type := list (string * V).

Section Object.
Context {V : Type}.

Fixpoint obj_get (o : JsObject V) (k : string) : option V :=
  match o with
  | [] => None
  | (k', v) :: o' => if String.eqb k k' then Some v else obj_get o' k
  end.

(** [o[k] = v]: an existing property keeps its place. *)
Fixpoint obj_set (o : JsObject V) (k : string) (v : V) : JsObject V :=
  match o with
  | [] => [(k, v)]
  | (k', v') :: o' =>
      if String.eqb k k' then (k, v) :: o' else (k', v') :: obj_set o' k v
  end.

(** [delete o[k]] *)
Definition obj_delete (o : JsObject V) (k : string) : JsObject V :=
  filter (fun kv => negb (String.eqb k (fst kv))) o.

Definition obj_keys (o : JsObject V) : list string := map fst o.
Definition obj_values (o : JsObject V) : list V := map snd o.
End Object.

(** ** Date

    [new Date(s).getTime()] for the format [toISOString] writes,
    [YYYY-MM-DDTHH:mm:ss.sssZ]; every other text is an invalid date here. *)

Definition is_digit (c : ascii) : bool :=
  let n := N_of_ascii c in ((48 <=? n) && (n <=? 57))%N.

Definition digit_value (c : ascii) : Z := Z.of_N (N_of_ascii c) - 48.

Fixpoint number_of (cs : list ascii) (acc : Z) : Z :=
  match cs with
  | [] => acc
  | c :: cs' => number_of cs' (10 * acc + digit_value c)
  end.

(** Days since 1970-01-01 of a proleptic Gregorian date. *)
Definition days_from_civil (y m d : Z) : Z :=
  let y' := if m <=? 2 then y - 1 else y in
  let era := y' / 400 in
  let yoe := y' - era * 400 in
  let doy := (153 * (if 2 <? m then m - 3 else m + 9) + 2) / 5 + d - 1 in
  let doe := yoe * 365 + yoe / 4 - yoe / 100 + doy in
  era * 146097 + doe - 719468.

Definition Date_getTime (s : string) : JsNumber :=
  match list_ascii_of_string s with
  | [y1; y2; y3; y4; "-"; m1; m2; "-"; d1; d2; "T";
     h1; h2; ":"; n1; n2; ":"; s1; s2; "."; f1; f2; f3; "Z"]%char =>
      let ds := [y1; y2; y3; y4; m1; m2; d1; d2; h1; h2; n1; n2; s1; s2; f1; f2; f3] in
      let y := number_of [y1; y2; y3; y4] 0 in
      let m := number_of [m1; m2] 0 in
      let d := number_of [d1; d2] 0 in
      let h := number_of [h1; h2] 0 in
      let n := number_of [n1; n2] 0 in
      let sc := number_of [s1; s2] 0 in
      let f := number_of [f1; f2; f3] 0 in
      if forallb is_digit ds
         && (1 <=? m) && (m <=? 12) && (1 <=? d) && (d <=? 31)
         && (h <=? 23) && (n <=? 59) && (sc <=? 59)
      then Num ((((days_from_civil y m d * 24 + h) * 60 + n) * 60 + sc) * 1000 + f)
      else NaN
  | _ => NaN
  end.

(** The shape of what [toISOString()] returns for years 0000 to 9999. *)
Fixpoint iso_shape_from (i : nat) (s : string) : bool :=
  match s with
  | EmptyString => (i =? 24)%nat
  | String c s' =>
      (if (i =? 4)%nat || (i =? 7)%nat then Ascii.eqb c "-"
       else if (i =? 10)%nat then Ascii.eqb c "T"
       else if (i =? 13)%nat || (i =? 16)%nat then Ascii.eqb c ":"
       else if (i =? 19)%nat then Ascii.eqb c "."
       else if (i =? 23)%nat then Ascii.eqb c "Z"
       else is_digit c)
      && iso_shape_from (Datatypes.S i) s'
  end.

Definition iso_shape (s : string) : bool := iso_shape_from 0 s.

(** ** randomUUID

    The shape of what [crypto.randomUUID()] returns: 36 characters, hyphens
    at offsets 8, 13, 18 and 23, lower-case hexadecimal digits elsewhere. *)




End Js.


(* ================================================================== *)
(** * The data model ([src/types/index.ts]) *)
(* ================================================================== *)

Module Types.

Inductive VariableType : Type := TString | TNumber | TBoolean | TArray.

Inductive DefaultValue : Type :=
| DString (s : string)
| DNumber (z : Z)
| DBoolean (b : bool)
| DArray (xs : list string).

Record PromptVariable : Type := {
  var_name : string;
  var_description : string;
  var_type : VariableType;
  var_required : bool;
  var_defaultValue : option DefaultValue
}.

Record PromptMetadata : Type := {
  createdAt : string;
  updatedAt : string;
  version : string;
  author : option string;
  usage : option Z
}.

Record Prompt : Type := {
  id : string;
  title : string;
  content : string;
  description : option string;
  tags : list string;
  category : string;
  variables : option (list PromptVariable);
  metadata : PromptMetadata
}.

Record CreatePromptRequest : Type := {
  c_title : string;
  c_content : string;
  c_description : option string;
  c_tags : list string;
  c_category : string;
  c_variables : option (list PromptVariable);
  c_author : option string
}.

Record UpdatePromptRequest : Type := {
  u_title : option string;
  u_content : option string;
  u_description : option string;
  u_tags : option (list string);
  u_category : option string;
  u_variables : option (list PromptVariable)
}.

Record SearchFilters : Type := {
  f_tags : option (list string);
  f_category : option string;
  f_title : option string;
  f_limit : option Z;
  f_offset : option Z
}.

Record PaginatedResponse (T : Type) : Type := {
  items : list T;
  total : Z;
  limit : Z;
  offset : Z
}.

Arguments items {T} _.
Arguments total {T} _.
Arguments limit {T} _.
Arguments offset {T} _.

(** A thrown [Error] and the outcome of an [async] call. *)
Record Error : Type := { message : string }.

Inductive Result (A : Type) : Type :=
| Ok (a : A)
| Throw (e : Error).

Arguments Ok {A} a.
Arguments Throw {A} e.

(** [interface StorageProvider], over the adapter's own state [S]. *)
Class StorageProvider (S : Type) : Type := {
  load : S -> Result (Js.JsObject Prompt) * S;
  save : Js.JsObject Prompt -> S -> Result unit * S;
  backup : S -> Result unit * S
}.

(** [filters: SearchFilters = {}] *)
Definition no_filters : SearchFilters :=
  {| f_tags := None; f_category := None; f_title := None;
     f_limit := None; f_offset := None |}.

End Types.

(* ================================================================== *)
(** * The prompt store ([src/services/PromptService.ts]) *)
(* ================================================================== *)

Module PromptService.
Import Js Types.

Record Service : Type := {
  prompts : JsObject Prompt;
  initialized : bool
}.

(** [new PromptService(storage)] *)
Definition fresh : Service := {| prompts := []; initialized := false |}.

(** [p.metadata.usage || 0] *)
Definition usage_or_0 (p : Prompt) : Z :=
  match usage (metadata p) with
  | Some n => n
  | None => 0
  end.

Definition set_usage (p : Prompt) (n : Z) : Prompt :=
  {| id := id p; title := title p; content := content p;
     description := description p; tags := tags p; category := category p;
     variables := variables p;
     metadata := {| createdAt := createdAt (metadata p);
                    updatedAt := updatedAt (metadata p);
                    version := version (metadata p);
                    author := author (metadata p);
                    usage := Some n |} |}.

(** [private incrementVersion(version)] *)
Definition template (o : option string) : string :=
  match o with
  | Some s => s
  | None => "undefined"
  end.

Definition incrementVersion (version : string) : string :=
  let parts := split "." version in
  let third := match nth_error parts 2 with
               | Some s => if truthy s then s else "0"
               | None => "0"
               end in
  let patch := add (parseInt third) (Num 1) in
  template (nth_error parts 0) ++ "." ++ template (nth_error parts 1)
    ++ "." ++ Number_toString patch.

(** [s.toLowerCase().includes(q.toLowerCase())] *)
Definition contains_ci (s q : string) : bool :=
  includes (toLowerCase s) (toLowerCase q).

(** [p.description && p.description.toLowerCase().includes(q)] *)
Definition description_contains_ci (p : Prompt) (q : string) : bool :=
  match description p with
  | Some d => truthy d && contains_ci d q
  | None => false
  end.

(** [p.tags.some(pTag => pTag.toLowerCase().includes(q))] *)
Definition some_tag_contains_ci (p : Prompt) (q : string) : bool :=
  existsb (fun pTag => contains_ci pTag q) (tags p).

(** The three filter steps of [listPrompts]; [searchPrompts] repeats the
    first two. *)
Definition filter_category (filters : SearchFilters) (ps : list Prompt) : list Prompt :=
  match f_category filters with
  | Some c => if truthy c then filter (fun p => contains_ci (category p) c) ps else ps
  | None => ps
  end.

Definition filter_tags (filters : SearchFilters) (ps : list Prompt) : list Prompt :=
  match f_tags filters with
  | Some (t :: ts) =>
      filter (fun p => existsb (fun tag => some_tag_contains_ci p tag) (t :: ts)) ps
  | _ => ps
  end.

Definition filter_title (filters : SearchFilters) (ps : list Prompt) : list Prompt :=
  match f_title filters with
  | Some t =>
      if truthy t
      then filter (fun p => contains_ci (title p) t || description_contains_ci p t) ps
      else ps
  | None => ps
  end.

(** The comparator of [listPrompts]. *)
Definition by_usage_then_updated (a b : Prompt) : JsNumber :=
  let usageDiff := usage_or_0 b - usage_or_0 a in
  if negb (usageDiff =? 0) then Num usageDiff
  else sub (Date_getTime (updatedAt (metadata b)))
           (Date_getTime (updatedAt (metadata a))).

(** [filters.limit || 50] and [filters.offset || 0] *)
Definition limit_of (filters : SearchFilters) : Z :=
  match f_limit filters with
  | Some n => if n =? 0 then 50 else n
  | None => 50
  end.

Definition offset_of (filters : SearchFilters) : Z :=
  match f_offset filters with
  | Some n => n
  | None => 0
  end.

Definition paginate (filters : SearchFilters) (ps : list Prompt)
  : PaginatedResponse Prompt :=
  let total := Z.of_nat (List.length ps) in
  let limit := limit_of filters in
  let offset := offset_of filters in
  {| items := slice ps offset (offset + limit);
     total := total; limit := limit; offset := offset |}.

(** [private calculateRelevanceScore(prompt, query)] *)
Definition calculateRelevanceScore (prompt : Prompt) (query : string) : Z :=
  let score := 0 in
  let score := if contains_ci (title prompt) query then score + 10 else score in
  let score := if some_tag_contains_ci prompt query then score + 5 else score in
  let score := if contains_ci (category prompt) query then score + 3 else score in
  let score := if description_contains_ci prompt query then score + 2 else score in
  let score := if contains_ci (content prompt) query then score + 1 else score in
  score.

(** The query test and the comparator of [searchPrompts]. *)
Definition matches_query (query : string) (prompt : Prompt) : bool :=
  contains_ci (title prompt) query
  || description_contains_ci prompt query
  || contains_ci (content prompt) query
  || some_tag_contains_ci prompt query
  || contains_ci (category prompt) query.

Definition by_score_then_usage (query : string) (a b : Prompt) : JsNumber :=
  let scoreA := calculateRelevanceScore a query in
  let scoreB := calculateRelevanceScore b query in
  if negb (scoreA =? scoreB) then Num (scoreB - scoreA)
  else Num (usage_or_0 b - usage_or_0 a).

(** The pure part of [createPrompt] and of [updatePrompt]: the record built
    from the request. *)
Definition new_prompt (id now : string) (request : CreatePromptRequest) : Prompt :=
  {| id := id;
     title := c_title request;
     content := c_content request;
     description := c_description request;
     tags := unique (c_tags request);
     category := c_category request;
     variables := Some (match c_variables request with
                        | Some vs => vs
                        | None => []
                        end);
     metadata := {| createdAt := now;
                    updatedAt := now;
                    version := "1.0.0";
                    author := if truthy_opt (c_author request)
                              then c_author request else None;
                    usage := Some 0 |} |}.

Definition or_existing {A : Type} (o : option A) (existing : A) : A :=
  match o with
  | Some a => a
  | None => existing
  end.

Definition updated_prompt (now : string) (existingPrompt : Prompt)
  (request : UpdatePromptRequest) : Prompt :=
  {| id := id existingPrompt;
     title := or_existing (u_title request) (title existingPrompt);
     content := or_existing (u_content request) (content existingPrompt);
     description := match u_description request with
                    | Some d => Some d
                    | None => description existingPrompt
                    end;
     tags := match u_tags request with
             | Some ts => unique ts
             | None => tags existingPrompt
             end;
     category := or_existing (u_category request) (category existingPrompt);
     variables := match u_variables request with
                  | Some vs => Some vs
                  | None => variables existingPrompt
                  end;
     metadata := {| createdAt := createdAt (metadata existingPrompt);
                    updatedAt := now;
                    version := incrementVersion (version (metadata existingPrompt));
                    author := author (metadata existingPrompt);
                    usage := usage (metadata existingPrompt) |} |}.

(** ** The operations, over the store and its adapter

    An operation runs on the pair of the service and the adapter state.  A
    throw keeps whatever was mutated before it. *)

Section Operations.
Context {S : Type} {storage : StorageProvider S}.

Definition World : Type := (Service * S)%type.
Definition M (A : Type) : Type := World -> Result A * World.

Definition ret {A : Type} (a : A) : M A := fun w => (Ok a, w).

Definition bind {A B : Type} (m : M A) (k : A -> M B) : M B :=
  fun w => match m w with
           | (Ok a, w') => k a w'
           | (Throw e, w') => (Throw e, w')
           end.

Notation "x <- m ;; k" := (bind m (fun x => k))
  (at level 61, m at next level, right associativity).
Notation "m ;;; k" := (bind m (fun _ => k))
  (at level 61, right associativity).

Definition this_prompts : M (JsObject Prompt) :=
  fun w => (Ok (prompts (fst w)), w).

Definition set_prompts (ps : JsObject Prompt) : M unit :=
  fun w => (Ok tt, ({| prompts := ps; initialized := initialized (fst w) |}, snd w)).

Definition storage_load : M (JsObject Prompt) :=
  fun w => let (r, s') := load (snd w) in (r, (fst w, s')).

Definition storage_save (ps : JsObject Prompt) : M unit :=
  fun w => let (r, s') := save ps (snd w) in (r, (fst w, s')).

Definition initialize : M unit :=
  fun w =>
    if initialized (fst w) then (Ok tt, w)
    else (ps <- storage_load ;;
          fun w' => (Ok tt, ({| prompts := ps; initialized := true |}, snd w'))) w.

Definition ensureInitialized : M unit :=
  fun w => if negb (initialized (fst w)) then initialize w else (Ok tt, w).

(** [createPrompt]; [uuid] is what [randomUUID()] returns and [now] what
    [new Date().toISOString()] returns. *)
Definition createPrompt (uuid now : string) (request : CreatePromptRequest) : M Prompt :=
  ensureInitialized ;;;
  let prompt := new_prompt uuid now request in
  ps <- this_prompts ;;
  set_prompts (obj_set ps uuid prompt) ;;;
  ps <- this_prompts ;;
  storage_save ps ;;;
  ret prompt.

Definition getPrompt (id : string) : M (option Prompt) :=
  ensureInitialized ;;;
  ps <- this_prompts ;;
  match obj_get ps id with
  | Some prompt =>
      let prompt := set_usage prompt (usage_or_0 prompt + 1) in
      set_prompts (obj_set ps id prompt) ;;;
      ps <- this_prompts ;;
      storage_save ps ;;;
      ret (Some prompt)
  | None => ret None
  end.

Definition updatePrompt (now : string) (id : string) (request : UpdatePromptRequest)
  : M (option Prompt) :=
  ensureInitialized ;;;
  ps <- this_prompts ;;
  match obj_get ps id with
  | None => ret None
  | Some existingPrompt =>
      let updatedPrompt := updated_prompt now existingPrompt request in
      set_prompts (obj_set ps id updatedPrompt) ;;;
      ps <- this_prompts ;;
      storage_save ps ;;;
      ret (Some updatedPrompt)
  end.

Definition deletePrompt (id : string) : M bool :=
  ensureInitialized ;;;
  ps <- this_prompts ;;
  match obj_get ps id with
  | None => ret false
  | Some _ =>
      set_prompts (obj_delete ps id) ;;;
      ps <- this_prompts ;;
      storage_save ps ;;;
      ret true
  end.

Definition listPrompts (filters : SearchFilters) : M (PaginatedResponse Prompt) :=
  ensureInitialized ;;;
  ps <- this_prompts ;;
  let filteredPrompts := obj_values ps in
  let filteredPrompts := filter_category filters filteredPrompts in
  let filteredPrompts := filter_tags filters filteredPrompts in
  let filteredPrompts := filter_title filters filteredPrompts in
  let filteredPrompts := sort by_usage_then_updated filteredPrompts in
  ret (paginate filters filteredPrompts).

Definition searchPrompts (query : string) (filters : SearchFilters)
  : M (PaginatedResponse Prompt) :=
  ensureInitialized ;;;
  ps <- this_prompts ;;
  let filteredPrompts := filter (matches_query query) (obj_values ps) in
  let filteredPrompts := filter_category filters filteredPrompts in
  let filteredPrompts := filter_tags filters filteredPrompts in
  let filteredPrompts := sort (by_score_then_usage query) filteredPrompts in
  ret (paginate filters filteredPrompts).

End Operations.

Arguments World : clear implicits.
Arguments M : clear implicits.

(** ** The adapter the unit tests use: [MockStorageProvider]

    Its state is the saved mapping; [load] and [save] copy it. *)
#[export] Instance MockStorageProvider : StorageProvider (JsObject Prompt) := {
  load := fun data => (Ok data, data);
  save := fun prompts _ => (Ok tt, prompts);
  backup := fun data => (Ok tt, data)
}.

End PromptService.

(* ================================================================== *)
(** * The file adapter ([src/storage/FileStorage.ts]) *)
(* ================================================================== *)

Module FileStorage.
Import Js Types.

(** ** Documents

    What [YAML.parse] returns and [YAML.stringify] takes: a JavaScript value.
    The field list of an object has no repeated key.  [load] casts such a
    value to [Prompt] unchecked, so the adapter is modelled on values and
    [prompt_value] is the value of a typed record. *)

#[local] Unset Elimination Schemes.
Inductive JsValue : Type :=
| VNull
| VBool (b : bool)
| VNumber (z : Z)
| VString (s : string)
| VArray (xs : list JsValue)
| VObject (fields : JsObject JsValue).
#[local] Set Elimination Schemes.

(** [!v] *)
Definition falsy (v : JsValue) : bool :=
  match v with
  | VNull => true
  | VBool b => negb b
  | VNumber z => z =? 0
  | VString s => String.eqb s ""
  | VArray _ | VObject _ => false
  end.

Inductive TypeOf : Type :=
| ty_undefined | ty_object | ty_boolean | ty_number | ty_string.

(** [typeof v]; a missing property is [undefined]. *)
Definition typeof (v : option JsValue) : TypeOf :=
  match v with
  | None => ty_undefined
  | Some VNull => ty_object
  | Some (VBool _) => ty_boolean
  | Some (VNumber _) => ty_number
  | Some (VString _) => ty_string
  | Some (VArray _) => ty_object
  | Some (VObject _) => ty_object
  end.

Definition is_ty_object (t : TypeOf) : bool :=
  match t with ty_object => true | _ => false end.

Definition is_ty_string (t : TypeOf) : bool :=
  match t with ty_string => true | _ => false end.

(** [v.k] for a name [k] that is no array index and no built-in. *)
Definition prop (v : JsValue) (k : string) : option JsValue :=
  match v with
  | VObject fields => obj_get fields k
  | _ => None
  end.

Definition Array_isArray (v : option JsValue) : bool :=
  match v with
  | Some (VArray _) => true
  | _ => false
  end.

Definition is_null (v : option JsValue) : bool :=
  match v with
  | Some VNull => true
  | _ => false
  end.

(** [private isValidPrompt(value)] *)
Definition isValidPrompt (value : JsValue) : bool :=
  if falsy value || negb (is_ty_object (typeof (Some value))) then false
  else
    let prompt := value in
    is_ty_string (typeof (prop prompt "id"))
    && is_ty_string (typeof (prop prompt "title"))
    && is_ty_string (typeof (prop prompt "content"))
    && Array_isArray (prop prompt "tags")
    && is_ty_string (typeof (prop prompt "category"))
    && is_ty_object (typeof (prop prompt "metadata"))
    && negb (is_null (prop prompt "metadata")).

(** [Object.entries(data)] of an object or of an array. *)
Fixpoint index_entries (i : N) (xs : list JsValue) : JsObject JsValue :=
  match xs with
  | [] => []
  | x :: xs' => (decimal i, x) :: index_entries (i + 1) xs'
  end.

Definition Object_entries (data : JsValue) : JsObject JsValue :=
  match data with
  | VObject fields => fields
  | VArray xs => index_entries 0 xs
  | _ => []
  end.

(** ** The world: files, faults, clock, console *)

Record FileSystem : Type := {
  dataDir : bool;
  dataFile : option string;
  backupDir : option (JsObject string)
}.

(** Which calls of [fs/promises] are rejected. *)
Record Faults : Type := {
  mkdir_fails : bool;
  readFile_fails : bool;
  writeFile_fails : bool;
  copyFile_fails : bool;
  readdir_fails : bool;
  unlink_fails : string -> bool
}.

Inductive LogEntry : Type :=
| console_error (label : string) (e : Error)
| console_warn (label : string).

Record World : Type := {
  fs : FileSystem;
  faults : Faults;
  clock : nat -> string;
  ticks : nat;
  console : list LogEntry
}.

Definition IO (A : Type) : Type := World -> Result A * World.

Definition ret {A : Type} (a : A) : IO A := fun w => (Ok a, w).

Definition throw {A : Type} (e : Error) : IO A := fun w => (Throw e, w).

Definition bind {A B : Type} (m : IO A) (k : A -> IO B) : IO B :=
  fun w => match m w with
           | (Ok a, w') => k a w'
           | (Throw e, w') => (Throw e, w')
           end.

Definition try_catch {A : Type} (body : IO A) (handler : Error -> IO A) : IO A :=
  fun w => match body w with
           | (Ok a, w') => (Ok a, w')
           | (Throw e, w') => handler e w'
           end.

Notation "x <- m ;; k" := (bind m (fun x => k))
  (at level 61, m at next level, right associativity).
Notation "m ;;; k" := (bind m (fun _ => k))
  (at level 61, right associativity).

Definition with_fs (w : World) (f : FileSystem) : World :=
  {| fs := f; faults := faults w; clock := clock w; ticks := ticks w;
     console := console w |}.

Definition log (entry : LogEntry) : IO unit :=
  fun w => (Ok tt, {| fs := fs w; faults := faults w; clock := clock w;
                      ticks := ticks w; console := console w ++ [entry] |}).

(** [new Date().toISOString()] *)
Definition now : IO string :=
  fun w => (Ok (clock w (ticks w)),
            {| fs := fs w; faults := faults w; clock := clock w;
               ticks := Datatypes.S (ticks w); console := console w |}).

Inductive Dir : Type := the_dataDir | the_backupDir.

Definition fs_error (code : string) : Error := {| message := code |}.

(** [private ensureDirectoryExists(dirPath?)]: [fs.access], else a recursive
    [fs.mkdir]. *)
Definition ensureDirectoryExists (dir : Dir) : IO unit :=
  fun w =>
    let f := fs w in
    match dir with
    | the_dataDir =>
        if dataDir f then (Ok tt, w)
        else if mkdir_fails (faults w) then (Throw (fs_error "EACCES: mkdir"), w)
        else (Ok tt, with_fs w {| dataDir := true; dataFile := dataFile f;
                                  backupDir := backupDir f |})
    | the_backupDir =>
        match backupDir f with
        | Some _ => (Ok tt, w)
        | None =>
            if mkdir_fails (faults w) then (Throw (fs_error "EACCES: mkdir"), w)
            else (Ok tt, with_fs w {| dataDir := true; dataFile := dataFile f;
                                      backupDir := Some [] |})
        end
    end.

(** [private fileExists(this.dataPath)] *)
Definition fileExists : IO bool :=
  fun w => (Ok (match dataFile (fs w) with Some _ => true | None => false end), w).

Definition readFile : IO string :=
  fun w =>
    match dataFile (fs w) with
    | Some text =>
        if readFile_fails (faults w) then (Throw (fs_error "EIO: read"), w)
        else (Ok text, w)
    | None => (Throw (fs_error "ENOENT: open"), w)
    end.

Definition writeFile (text : string) : IO unit :=
  fun w =>
    let f := fs w in
    if writeFile_fails (faults w) then (Throw (fs_error "EIO: write"), w)
    else if negb (dataDir f) then (Throw (fs_error "ENOENT: open"), w)
    else (Ok tt, with_fs w {| dataDir := true; dataFile := Some text;
                              backupDir := backupDir f |}).

(** [fs.copyFile(this.dataPath, backupFilePath)] *)
Definition copyFile (backupFileName : string) : IO unit :=
  fun w =>
    let f := fs w in
    if copyFile_fails (faults w) then (Throw (fs_error "EIO: copyfile"), w)
    else match dataFile f, backupDir f with
         | Some text, Some entries =>
             (Ok tt, with_fs w {| dataDir := dataDir f; dataFile := dataFile f;
                                  backupDir := Some (obj_set entries backupFileName text) |})
         | _, _ => (Throw (fs_error "ENOENT: copyfile"), w)
         end.

(** [fs.readdir(this.backupPath)] *)
Definition readdir : IO (list string) :=
  fun w =>
    if readdir_fails (faults w) then (Throw (fs_error "EIO: scandir"), w)
    else match backupDir (fs w) with
         | Some entries => (Ok (obj_keys entries), w)
         | None => (Throw (fs_error "ENOENT: scandir"), w)
         end.

(** [fs.unlink(path.join(this.backupPath, file))] *)
Definition unlink (file : string) : IO unit :=
  fun w =>
    let f := fs w in
    if unlink_fails (faults w) file then (Throw (fs_error "EPERM: unlink"), w)
    else match backupDir f with
         | Some entries =>
             match obj_get entries file with
             | Some _ =>
                 (Ok tt, with_fs w {| dataDir := dataDir f; dataFile := dataFile f;
                                      backupDir := Some (obj_delete entries file) |})
             | None => (Throw (fs_error "ENOENT: unlink"), w)
             end
         | None => (Throw (fs_error "ENOENT: unlink"), w)
         end.

(** [for (const x of xs) await f(x)] *)
Fixpoint for_each {A : Type} (f : A -> IO unit) (xs : list A) : IO unit :=
  match xs with
  | [] => ret tt
  | x :: xs' => f x ;;; for_each f xs'
  end.

(** ** The adapter *)

Definition is_backup_name (file : string) : bool :=
  startsWith file "prompts-backup-" && endsWith file ".yaml".

Definition backupFileName (timestamp : string) : string :=
  ("prompts-backup-" ++ replace_colon_dot timestamp ++ ".yaml")%string.

(** [private cleanupOldBackups()] *)
Definition cleanupOldBackups : IO unit :=
  try_catch
    (files <- readdir ;;
     let backupFiles := rev (sort_strings (filter is_backup_name files)) in
     if (10 <? List.length backupFiles)%nat
     then let filesToDelete := slice backupFiles 10 (Z.of_nat (List.length backupFiles)) in
          for_each unlink filesToDelete
     else ret tt)
    (fun error => log (console_warn "Warning: Could not cleanup old backups:")).

(** [backup()] *)
Definition backup : IO unit :=
  try_catch
    (ensureDirectoryExists the_backupDir ;;;
     present <- fileExists ;;
     if present
     then timestamp <- now ;;
          copyFile (backupFileName timestamp) ;;;
          cleanupOldBackups
     else ret tt)
    (fun error =>
       log (console_error "Error creating backup:" error) ;;;
       throw {| message := "Failed to create backup: " ++ message error |}).

(** [private validateAndTransformData(data)] *)
Definition validateAndTransformData (data : JsValue) : IO (JsObject JsValue) :=
  if falsy data || negb (is_ty_object (typeof (Some data))) then ret []
  else
    fold_left
      (fun (acc : IO (JsObject JsValue)) (entry : string * JsValue) =>
         result <- acc ;;
         let (key, value) := entry in
         if isValidPrompt value then ret (obj_set result key value)
         else log (console_warn ("Invalid prompt data for key " ++ key ++ ", skipping")) ;;;
              ret result)
      (Object_entries data) (ret []).

Section Yaml.
(** The [yaml] package: [YAML.parse] throws on text it cannot read. *)
Variable YAML_parse : string -> Result JsValue.
Variable YAML_stringify : JsValue -> string.

(** [save(prompts)] *)
Definition save (prompts : JsObject JsValue) : IO unit :=
  try_catch
    (ensureDirectoryExists the_dataDir ;;;
     present <- fileExists ;;
     (if present then backup else ret tt) ;;;
     let yamlContent := YAML_stringify (VObject prompts) in
     writeFile yamlContent)
    (fun error =>
       log (console_error "Error saving prompts:" error) ;;;
       throw {| message := "Failed to save prompts: " ++ message error |}).

(** [load()] *)
Definition load : IO (JsObject JsValue) :=
  try_catch
    (ensureDirectoryExists the_dataDir ;;;
     present <- fileExists ;;
     if negb present
     then save [] ;;; ret []
     else yamlContent <- readFile ;;
          parsed <- (fun w => (YAML_parse yamlContent, w)) ;;
          let data := if falsy parsed then VObject [] else parsed in
          validateAndTransformData data)
    (fun error =>
       log (console_error "Error loading prompts:" error) ;;;
       throw {| message := "Failed to load prompts: " ++ message error |}).

(** Saves in a row, each awaited; the run stops at the first throw. *)
Fixpoint save_all (docs : list (JsObject JsValue)) : IO unit :=
  match docs with
  | [] => ret tt
  | prompts :: rest => save prompts ;;; save_all rest
  end.

End Yaml.

(** ** Typed records as values *)

Definition opt_field {A : Type} (k : string) (f : A -> JsValue) (o : option A)
  : JsObject JsValue :=
  match o with
  | Some a => [(k, f a)]
  | None => []
  end.

Definition strings_value (xs : list string) : JsValue := VArray (map VString xs).

Definition type_value (t : VariableType) : JsValue :=
  VString (match t with
           | TString => "string"
           | TNumber => "number"
           | TBoolean => "boolean"
           | TArray => "array"
           end).

Definition default_value (d : DefaultValue) : JsValue :=
  match d with
  | DString s => VString s
  | DNumber z => VNumber z
  | DBoolean b => VBool b
  | DArray xs => strings_value xs
  end.

Definition variable_value (v : PromptVariable) : JsValue :=
  VObject ([("name"%string, VString (var_name v));
            ("description"%string, VString (var_description v));
            ("type"%string, type_value (var_type v));
            ("required"%string, VBool (var_required v))]
           ++ opt_field "defaultValue" default_value (var_defaultValue v)).

Definition metadata_value (m : PromptMetadata) : JsValue :=
  VObject ([("createdAt"%string, VString (createdAt m));
            ("updatedAt"%string, VString (updatedAt m));
            ("version"%string, VString (version m))]
           ++ opt_field "author" VString (author m)
           ++ opt_field "usage" VNumber (usage m)).

Definition prompt_value (p : Prompt) : JsValue :=
  VObject ([("id"%string, VString (id p));
            ("title"%string, VString (title p));
            ("content"%string, VString (content p))]
           ++ opt_field "description" VString (description p)
           ++ [("tags"%string, strings_value (tags p));
               ("category"%string, VString (category p))]
           ++ opt_field "variables"
                (fun vs => VArray (map variable_value vs)) (variables p)
           ++ [("metadata"%string, metadata_value (metadata p))]).

Definition prompts_value (prompts : JsObject Prompt) : JsObject JsValue :=
  map (fun kv => (fst kv, prompt_value (snd kv))) prompts.

End FileStorage.

(* ================================================================== *)
(** * A reference codec *)
(* ================================================================== *)

(** The adapter is stated over any [YAML.parse] and [YAML.stringify].  To run
    it on concrete files this module supplies one block-structured text
    format: [~] for null, [T] and [F], [#n;] for a number, [$len:text] for a
    string, [[...]] for an array and [{...}] for an object whose keys are
    written [len:text]. *)

Module Codec.
Import Js Types FileStorage.

Definition emit_string (s : string) : string :=
  (decimal (N.of_nat (String.length s)) ++ ":" ++ s)%string.

Fixpoint stringify (v : JsValue) : string :=
  match v with
  | VNull => "~"
  | VBool true => "T"
  | VBool false => "F"
  | VNumber z => "#" ++ Number_toString (Num z) ++ ";"
  | VString s => "$" ++ emit_string s
  | VArray xs =>
      "[" ++ (fix items (xs : list JsValue) : string :=
                match xs with
                | [] => ""
                | x :: rest => stringify x ++ items rest
                end) xs ++ "]"
  | VObject fields =>
      "{" ++ (fix members (fields : list (string * JsValue)) : string :=
                match fields with
                | [] => ""
                | (k, x) :: rest => emit_string k ++ stringify x ++ members rest
                end) fields ++ "}"
  end%string.

Fixpoint until (stop : ascii) (s : string) : option (string * string) :=
  match s with
  | EmptyString => None
  | String c rest =>
      if Ascii.eqb c stop then Some (EmptyString, rest)
      else match until stop rest with
           | Some (a, b) => Some (String c a, b)
           | None => None
           end
  end.

Definition read_string (s : string) : option (string * string) :=
  match until ":" s with
  | Some (digits, body) =>
      match parseInt digits with
      | Num n =>
          let len := Z.to_nat n in
          if (len <=? String.length body)%nat
          then Some (String.substring 0 len body,
                     String.substring len (String.length body - len) body)
          else None
      | NaN => None
      end
  | None => None
  end.

Fixpoint parse_value (fuel : nat) (s : string) : option (JsValue * string) :=
  match fuel with
  | O => None
  | Datatypes.S fuel' =>
      match s with
      | String "~" rest => Some (VNull, rest)
      | String "T" rest => Some (VBool true, rest)
      | String "F" rest => Some (VBool false, rest)
      | String "#" rest =>
          match until ";" rest with
          | Some (digits, rest') =>
              match parseInt digits with
              | Num z => Some (VNumber z, rest')
              | NaN => None
              end
          | None => None
          end
      | String "$" rest =>
          match read_string rest with
          | Some (text, rest') => Some (VString text, rest')
          | None => None
          end
      | String "[" rest =>
          match parse_items fuel' rest with
          | Some (xs, rest') => Some (VArray xs, rest')
          | None => None
          end
      | String "{" rest =>
          match parse_members fuel' rest with
          | Some (fields, rest') => Some (VObject fields, rest')
          | None => None
          end
      | _ => None
      end
  end
with parse_items (fuel : nat) (s : string) : option (list JsValue * string) :=
  match fuel with
  | O => None
  | Datatypes.S fuel' =>
      match s with
      | String "]" rest => Some ([], rest)
      | _ =>
          match parse_value fuel' s with
          | Some (x, rest) =>
              match parse_items fuel' rest with
              | Some (xs, rest') => Some (x :: xs, rest')
              | None => None
              end
          | None => None
          end
      end
  end
with parse_members (fuel : nat) (s : string)
  : option (list (string * JsValue) * string) :=
  match fuel with
  | O => None
  | Datatypes.S fuel' =>
      match s with
      | String "}" rest => Some ([], rest)
      | _ =>
          match read_string s with
          | Some (k, rest) =>
              match parse_value fuel' rest with
              | Some (x, rest') =>
                  match parse_members fuel' rest' with
                  | Some (fields, rest'') => Some ((k, x) :: fields, rest'')
                  | None => None
                  end
              | None => None
              end
          | None => None
          end
      end
  end.

Definition parse (text : string) : Result JsValue :=
  match parse_value (2 * String.length text + 2) text with
  | Some (v, EmptyString) => Ok v
  | _ => Throw {| message := "unexpected text in document" |}
  end.

End Codec.

(* ================================================================== *)
(** * Facts about the runtime fragment *)
(* ================================================================== *)

Module JsFacts.
Import Js.

(** ** Substrings *)

Lemma prefix_iff (p s : string) :
  String.prefix p s = true <-> exists r, s = (p ++ r)%string.
Proof.
  revert s; induction p as [|c p IH]; intros s; simpl.
  - destruct s; split; eauto.
  - destruct s as [|d s]; simpl.
    + split; [discriminate | intros [r Hr]; discriminate].
    + destruct (ascii_dec c d) as [->|Hcd].
      * rewrite IH. split; intros [r Hr]; exists r; congruence.
      * split; [discriminate | intros [r Hr]; congruence].
Qed.

Lemma includes_unfold (s sub : string) :
  includes s sub
  = if String.prefix sub s then true
    else match s with
         | EmptyString => false
         | String _ s' => includes s' sub
         end.
Proof. destruct s; reflexivity. Qed.

Lemma includes_iff (s sub : string) :
  includes s sub = true <-> exists a b, s = (a ++ sub ++ b)%string.
Proof.
  induction s as [|c s IH]; rewrite includes_unfold.
  - destruct (String.prefix sub "") eqn:Hp.
    + split; auto. intros _. apply prefix_iff in Hp as [r Hr].
      exists ""%string, r. exact Hr.
    + split; [discriminate|]. intros (a & b & Hab).
      destruct a; simpl in Hab.
      * assert (String.prefix sub "" = true) by (apply prefix_iff; eauto).
        congruence.
      * discriminate.
  - destruct (String.prefix sub (String c s)) eqn:Hp.
    + split; auto. intros _. apply prefix_iff in Hp as [r Hr].
      exists ""%string, r. exact Hr.
    + rewrite IH. split.
      * intros (a & b & ->). exists (String c a), b. reflexivity.
      * intros (a & b & Hab). destruct a as [|c' a]; simpl in Hab.
        -- assert (String.prefix sub (String c s) = true)
             by (apply prefix_iff; eauto).
           congruence.
        -- exists a, b. congruence.
Qed.

(** ** [split] *)

Fixpoint has_char (c : ascii) (s : string) : bool :=
  match s with
  | EmptyString => false
  | String d s' => Ascii.eqb d c || has_char c s'
  end.

Lemma split_nonempty (sep : ascii) (s : string) : split sep s <> [].
Proof.
  induction s as [|c s IH]; simpl; [discriminate|].
  destruct (Ascii.eqb c sep); [discriminate|].
  destruct (split sep s); [contradiction | discriminate].
Qed.

Lemma split_no_sep (sep : ascii) (s : string) :
  has_char sep s = false -> split sep s = [s].
Proof.
  induction s as [|c s IH]; simpl; [reflexivity|].
  intros H. apply orb_false_iff in H as [Hc Hs].
  rewrite Hc, (IH Hs). reflexivity.
Qed.

Lemma split_app (sep : ascii) (a b : string) :
  has_char sep a = false ->
  split sep (a ++ String sep b) = a :: split sep b.
Proof.
  induction a as [|c a IH]; simpl; intros H.
  - rewrite Ascii.eqb_refl. reflexivity.
  - apply orb_false_iff in H as [Hc Ha].
    rewrite Hc, (IH Ha). reflexivity.
Qed.

(** ** Decimal numerals and [parseInt] *)

Lemma digits_prefix_string_of_uint (d : Decimal.uint) :
  digits_prefix (NilEmpty.string_of_uint d) = d.
Proof. induction d; simpl; congruence. Qed.

Lemma string_of_uint_head (d : Decimal.uint) :
  d <> Decimal.Nil ->
  exists c r, NilEmpty.string_of_uint d = String c r /\ is_digit c = true.
Proof. destruct d; intros H; [contradiction | simpl; eauto ..]. Qed.

Lemma trimStart_digit (c : ascii) (r : string) :
  is_digit c = true -> trimStart (String c r) = String c r.
Proof.
  destruct c as [[|] [|] [|] [|] [|] [|] [|] [|]]; intros H;
    (reflexivity || (cbv in H; discriminate H)).
Qed.

Lemma is_digit_not_sign (c : ascii) :
  is_digit c = true -> c <> "-"%char /\ c <> "+"%char.
Proof. intros H; split; intros ->; discriminate H. Qed.

Lemma to_uint_not_Nil (n : N) : N.to_uint n <> Decimal.Nil.
Proof.
  destruct n as [|p]; simpl; [discriminate|].
  apply DecimalPos.Unsigned.to_uint_nonnil.
Qed.

Lemma decimal_eq (n : N) : decimal n = NilEmpty.string_of_uint (N.to_uint n).
Proof.
  unfold decimal, Number_toString.
  destruct n as [|p]; [reflexivity|].
  simpl. unfold NilZero.string_of_uint.
  pose proof (DecimalPos.Unsigned.to_uint_nonnil p) as Hp.
  destruct (Pos.to_uint p); [contradiction | reflexivity ..].
Qed.

Lemma parseInt_decimal (n : N) : parseInt (decimal n) = Num (Z.of_N n).
Proof.
  rewrite decimal_eq.
  destruct (string_of_uint_head _ (to_uint_not_Nil n)) as (c & r & Hcr & Hc).
  assert (Hu : unsigned_digits (NilEmpty.string_of_uint (N.to_uint n))
               = Num (Z.of_N n)).
  { unfold unsigned_digits. rewrite digits_prefix_string_of_uint.
    pose proof (to_uint_not_Nil n) as Hn.
    assert (Hof : Z.of_uint (N.to_uint n) = Z.of_N n).
    { unfold Z.of_uint. f_equal. apply (DecimalN.Unsigned.of_to n). }
    destruct (N.to_uint n); [contradiction | now rewrite Hof ..]. }
  unfold parseInt. rewrite Hcr, (trimStart_digit c r Hc).
  rewrite Hcr in Hu.
  destruct c as [[|] [|] [|] [|] [|] [|] [|] [|]];
    (exact Hu || (cbv in Hc; discriminate Hc)).
Qed.






(** ** [Set]: first-seen order

    [dedup_first] follows the words "duplicates removed, first-seen order":
    keep the head, drop its later copies. *)

Fixpoint dedup_first (xs : list string) : list string :=
  match xs with
  | [] => []
  | x :: xs' => x :: filter (fun y => negb (String.eqb x y)) (dedup_first xs')
  end.

Lemma filter_filter_and {A : Type} (P Q : A -> bool) (xs : list A) :
  filter P (filter Q xs) = filter (fun y => Q y && P y) xs.
Proof.
  induction xs as [|y ys IH]; simpl; [reflexivity|].
  destruct (Q y); simpl; [destruct (P y); now rewrite IH | exact IH].
Qed.

Lemma fold_Set_add (xs acc : list string) :
  fold_left Set_add xs acc
  = acc ++ filter (fun y => negb (existsb (String.eqb y) acc)) (dedup_first xs).
Proof.
  revert acc; induction xs as [|x xs IH]; intros acc; simpl.
  - now rewrite app_nil_r.
  - rewrite IH. unfold Set_add.
    destruct (existsb (String.eqb x) acc) eqn:Hx; simpl.
    + f_equal. rewrite filter_filter_and. apply filter_ext. intros y.
      destruct (String.eqb_spec x y) as [->|Hne]; simpl; [now rewrite Hx | reflexivity].
    + rewrite <- app_assoc. simpl. f_equal. f_equal.
      rewrite filter_filter_and. apply filter_ext. intros y.
      rewrite existsb_app. simpl. rewrite orb_false_r.
      rewrite (String.eqb_sym x y).
      now destruct (existsb (String.eqb y) acc), (String.eqb y x).
Qed.

Lemma unique_dedup_first (xs : list string) : unique xs = dedup_first xs.
Proof.
  unfold unique. rewrite fold_Set_add. simpl.
  induction (dedup_first xs) as [|y ys IH]; simpl; [reflexivity|].
  now f_equal.
Qed.

Lemma dedup_first_In (xs : list string) (x : string) :
  In x (dedup_first xs) <-> In x xs.
Proof.
  induction xs as [|y ys IH]; simpl; [tauto|].
  rewrite filter_In, IH.
  destruct (String.eqb_spec y x) as [->|Hne]; simpl.
  - split; auto.
  - split; [intros [?|[? _]]; auto | intros [?|?]; auto].
Qed.

Lemma dedup_first_NoDup (xs : list string) : NoDup (dedup_first xs).
Proof.
  induction xs as [|y ys IH]; simpl; constructor.
  - rewrite filter_In. intros [_ H]. now rewrite String.eqb_refl in H.
  - now apply NoDup_filter.
Qed.

Lemma dedup_first_NoDup_id (xs : list string) : NoDup xs -> dedup_first xs = xs.
Proof.
  induction 1 as [|x xs Hx Hnd IH]; simpl; [reflexivity|].
  rewrite IH. f_equal.
  apply forallb_filter_id. apply forallb_forall. intros y Hy.
  destruct (String.eqb_spec x y) as [->|]; [contradiction | reflexivity].
Qed.

(** ** [slice] on a non-negative window *)

Lemma slice_window {A : Type} (xs : list A) (offset limit : Z) :
  0 <= offset -> 0 <= limit ->
  slice xs offset (offset + limit)
  = firstn (Z.to_nat limit) (skipn (Z.to_nat offset) xs).
Proof.
  intros Ho Hl. unfold slice, relative_index.
  set (len := Z.of_nat (List.length xs)).
  assert (Hlen : 0 <= len) by (unfold len; lia).
  destruct (offset <? 0) eqn:H1; [apply Z.ltb_lt in H1; lia|].
  destruct (offset + limit <? 0) eqn:H2; [apply Z.ltb_lt in H2; lia|].
  destruct (Z.le_gt_cases offset len) as [Hin|Hout].
  - rewrite (Z.min_l offset len) by lia.
    destruct (Z.le_gt_cases (offset + limit) len) as [Hin2|Hout2].
    + rewrite Z.min_l by lia. f_equal. lia.
    + rewrite Z.min_r by lia.
      rewrite !firstn_all2; try reflexivity;
        rewrite length_skipn; unfold len in *; lia.
  - rewrite (Z.min_r offset len) by lia. rewrite Z.min_r by lia.
    rewrite !skipn_all2 by (unfold len in *; lia).
    now rewrite !firstn_nil.
Qed.

(** ** [sort]: a permutation, ordered when the comparator is total *)

Section SortFacts.
Context {A : Type} (cmp : A -> A -> JsNumber).

Definition before (x y : A) : Prop := SortCompare cmp x y <= 0.

Lemma insert_perm (x : A) (xs : list A) : Permutation (insert cmp x xs) (x :: xs).
Proof.
  induction xs as [|y ys IH]; simpl; [reflexivity|].
  destruct (SortCompare cmp x y <=? 0); [reflexivity|].
  rewrite IH. apply perm_swap.
Qed.

Lemma sort_perm (xs : list A) : Permutation (sort cmp xs) xs.
Proof.
  induction xs as [|x xs IH]; simpl; [reflexivity|].
  rewrite insert_perm. now constructor.
Qed.

Lemma sort_length (xs : list A) : List.length (sort cmp xs) = List.length xs.
Proof. apply Permutation_length, sort_perm. Qed.

Hypothesis total : forall x y, before x y \/ before y x.

Lemma insert_sorted (x : A) (xs : list A) :
  Sorted before xs -> Sorted before (insert cmp x xs).
Proof.
  induction 1 as [|y ys Hs IH Hhd]; simpl.
  - repeat constructor.
  - destruct (SortCompare cmp x y <=? 0) eqn:Hxy.
    + apply Z.leb_le in Hxy. repeat constructor; assumption.
    + apply Z.leb_gt in Hxy. constructor; [exact IH|].
      assert (Hyx : before y x).
      { destruct (total x y) as [H|H]; [unfold before in H; lia | exact H]. }
      destruct ys as [|z zs]; simpl.
      * constructor. exact Hyx.
      * destruct (SortCompare cmp x z <=? 0); constructor;
          [exact Hyx | now inversion Hhd].
Qed.

Lemma sort_sorted (xs : list A) : Sorted before (sort cmp xs).
Proof.
  induction xs as [|x xs IH]; simpl; [constructor | now apply insert_sorted].
Qed.

End SortFacts.

Lemma Sorted_weaken {A : Type} (R R' : A -> A -> Prop) (xs : list A) :
  (forall x y, In x xs -> In y xs -> R x y -> R' x y) ->
  Sorted R xs -> Sorted R' xs.
Proof.
  intros Himp Hs. induction Hs as [|x xs Hs IH Hhd]; constructor.
  - apply IH. intros; apply Himp; simpl; auto.
  - destruct Hhd as [|y ys Hxy]; constructor.
    apply Himp; simpl; auto.
Qed.

(** ** The order of strings *)

Definition str_le (a b : string) : Prop := String.compare a b <> Gt.
Definition str_lt (a b : string) : Prop := String.compare a b = Lt.

Lemma ascii_compare_refl (c : ascii) : Ascii.compare c c = Eq.
Proof. apply N.compare_refl. Qed.

Lemma compare_refl (a : string) : String.compare a a = Eq.
Proof. induction a as [|c a IH]; simpl; [|rewrite ascii_compare_refl]; auto. Qed.

Lemma str_le_trans (a b c : string) : str_le a b -> str_le b c -> str_le a c.
Proof.
  unfold str_le. revert b c.
  induction a as [|x a IH]; intros [|y b] [|z c]; simpl; try congruence.
  unfold Ascii.compare.
  destruct (N.compare_spec (N_of_ascii x) (N_of_ascii y)) as [Hxy|Hxy|Hxy],
           (N.compare_spec (N_of_ascii y) (N_of_ascii z)) as [Hyz|Hyz|Hyz],
           (N.compare_spec (N_of_ascii x) (N_of_ascii z)) as [Hxz|Hxz|Hxz];
    try congruence; try lia.
  apply IH.
Qed.

Lemma str_lt_le_trans (a b c : string) : str_lt a b -> str_le b c -> str_lt a c.
Proof.
  unfold str_lt, str_le. revert b c.
  induction a as [|x a IH]; intros [|y b] [|z c]; simpl; try congruence.
  unfold Ascii.compare.
  destruct (N.compare_spec (N_of_ascii x) (N_of_ascii y)) as [Hxy|Hxy|Hxy],
           (N.compare_spec (N_of_ascii y) (N_of_ascii z)) as [Hyz|Hyz|Hyz],
           (N.compare_spec (N_of_ascii x) (N_of_ascii z)) as [Hxz|Hxz|Hxz];
    try congruence; try lia.
  apply IH.
Qed.

Lemma str_lt_le (a b : string) : str_lt a b -> str_le a b.
Proof. unfold str_lt, str_le. congruence. Qed.

Lemma str_lt_irrefl (a : string) : ~ str_lt a a.
Proof. unfold str_lt. rewrite compare_refl. discriminate. Qed.

Lemma str_le_total (a b : string) : str_le a b \/ str_le b a.
Proof.
  unfold str_le. rewrite (String.compare_antisym a b).
  destruct (String.compare b a); simpl; auto; left + right; discriminate.
Qed.

Lemma str_le_antisym (a b : string) : str_le a b -> str_le b a -> a = b.
Proof.
  unfold str_le. rewrite (String.compare_antisym b a).
  destruct (String.compare a b) eqn:E; simpl; try congruence.
  intros _ _. now apply String.compare_eq_iff.
Qed.

Definition compare_strings (a b : string) : JsNumber :=
  match String.compare a b with
  | Lt => Num (-1)
  | Eq => Num 0
  | Gt => Num 1
  end.

Lemma before_compare_strings (a b : string) :
  before compare_strings a b <-> str_le a b.
Proof.
  unfold before, SortCompare, compare_strings, str_le.
  destruct (String.compare a b); split; intros; try lia; congruence.
Qed.

Lemma sort_strings_perm (xs : list string) : Permutation (sort_strings xs) xs.
Proof. apply sort_perm. Qed.

Lemma sort_strings_sorted (xs : list string) :
  StronglySorted str_le (sort_strings xs).
Proof.
  apply Sorted_StronglySorted; [intros a b c; apply str_le_trans|].
  apply Sorted_weaken with (R := before compare_strings).
  - intros a b _ _. apply before_compare_strings.
  - apply sort_sorted. intros a b. rewrite !before_compare_strings.
    apply str_le_total.
Qed.

Lemma sort_strings_id (xs : list string) :
  StronglySorted str_le xs -> sort_strings xs = xs.
Proof.
  unfold sort_strings. induction 1 as [|x xs Hs IH Hall]; simpl; [reflexivity|].
  rewrite IH. destruct xs as [|y ys]; simpl; [reflexivity|].
  apply Forall_inv in Hall.
  apply (before_compare_strings x y) in Hall. unfold before in Hall.
  apply Z.leb_le in Hall. fold compare_strings. now rewrite Hall.
Qed.

(** ** Backup file names follow their timestamps *)

Lemma compare_app_prefix (p a b : string) :
  String.compare (p ++ a) (p ++ b) = String.compare a b.
Proof. induction p as [|c p IH]; simpl; [|rewrite ascii_compare_refl]; auto. Qed.

Lemma compare_app_suffix (a b x : string) :
  String.length a = String.length b ->
  String.compare (a ++ x) (b ++ x) = String.compare a b.
Proof.
  revert b; induction a as [|c a IH]; intros [|d b]; simpl; try discriminate.
  - intros _. apply compare_refl.
  - intros [= Hlen]. destruct (Ascii.compare c d); auto.
Qed.

Definition is_colon_dot (c : ascii) : bool := Ascii.eqb c ":" || Ascii.eqb c ".".

(** Two texts with their colons and dots at the same places. *)
Fixpoint aligned (a b : string) : Prop :=
  match a, b with
  | EmptyString, EmptyString => True
  | String c a', String d b' =>
      (c = d \/ (is_colon_dot c = false /\ is_colon_dot d = false))
      /\ aligned a' b'
  | _, _ => False
  end.

Lemma replace_colon_dot_length (s : string) :
  String.length (replace_colon_dot s) = String.length s.
Proof. induction s; simpl; auto. Qed.

Lemma replace_colon_dot_compare (a b : string) :
  aligned a b ->
  String.compare (replace_colon_dot a) (replace_colon_dot b) = String.compare a b.
Proof.
  revert b; induction a as [|c a IH]; intros [|d b]; simpl; try tauto.
  intros [[->|[Hc Hd]] Hal].
  - rewrite !ascii_compare_refl. now apply IH.
  - unfold is_colon_dot in Hc, Hd. rewrite Hc, Hd.
    destruct (Ascii.compare c d); auto.
Qed.

Lemma aligned_length (a b : string) :
  aligned a b -> String.length a = String.length b.
Proof.
  revert b; induction a as [|c a IH]; intros [|d b]; simpl; try tauto.
  intros [_ H]. f_equal. now apply IH.
Qed.

Lemma is_digit_not_colon_dot (c : ascii) :
  is_digit c = true -> is_colon_dot c = false.
Proof.
  destruct c as [[|] [|] [|] [|] [|] [|] [|] [|]]; intros H;
    (reflexivity || (cbv in H; discriminate H)).
Qed.

Lemma iso_shape_from_overflow (s : string) (i : nat) :
  (24 < i)%nat -> iso_shape_from i s = false.
Proof.
  revert i; induction s as [|c s IH]; intros i Hi; simpl.
  - apply Nat.eqb_neq. lia.
  - rewrite IH by lia. apply andb_false_r.
Qed.

Lemma iso_shape_from_end (c : ascii) (s : string) (i : nat) :
  (i =? 24)%nat = true -> iso_shape_from i (String c s) = false.
Proof.
  intros Hi. apply Nat.eqb_eq in Hi. subst i. simpl.
  rewrite iso_shape_from_overflow by lia. apply andb_false_r.
Qed.

Lemma iso_shape_aligned (i : nat) (a b : string) :
  iso_shape_from i a = true -> iso_shape_from i b = true -> aligned a b.
Proof.
  revert i b; induction a as [|c a IH]; intros i [|d b] Ha Hb.
  - exact I.
  - simpl in Ha. rewrite (iso_shape_from_end d b i Ha) in Hb. discriminate.
  - simpl in Hb. rewrite (iso_shape_from_end c a i Hb) in Ha. discriminate.
  - simpl in Ha, Hb |- *.
    apply andb_true_iff in Ha as [Hc Ha]. apply andb_true_iff in Hb as [Hd Hb].
    split; [|exact (IH _ _ Ha Hb)].
    destruct ((i =? 4)%nat || (i =? 7)%nat);
      [left; apply Ascii.eqb_eq in Hc, Hd; congruence|].
    destruct (i =? 10)%nat;
      [left; apply Ascii.eqb_eq in Hc, Hd; congruence|].
    destruct ((i =? 13)%nat || (i =? 16)%nat);
      [left; apply Ascii.eqb_eq in Hc, Hd; congruence|].
    destruct (i =? 19)%nat;
      [left; apply Ascii.eqb_eq in Hc, Hd; congruence|].
    destruct (i =? 23)%nat;
      [left; apply Ascii.eqb_eq in Hc, Hd; congruence|].
    right. split; now apply is_digit_not_colon_dot.
Qed.

(** ** [startsWith] and [endsWith] on a concatenation *)

Lemma startsWith_app (p s : string) : startsWith (p ++ s) p = true.
Proof. apply prefix_iff. now exists s. Qed.

Lemma append_length (a b : string) :
  String.length (a ++ b) = (String.length a + String.length b)%nat.
Proof. induction a; simpl; auto. Qed.

Lemma substring_all (s : string) : String.substring 0 (String.length s) s = s.
Proof. induction s as [|c s IH]; simpl; [reflexivity | now rewrite IH]. Qed.

Lemma substring_app_tail (a p : string) :
  String.substring (String.length a) (String.length p) (a ++ p) = p.
Proof. induction a as [|c a IH]; simpl; [apply substring_all | exact IH]. Qed.

Lemma endsWith_app (s p : string) : endsWith (s ++ p) p = true.
Proof.
  unfold endsWith. rewrite append_length.
  replace (String.length s + String.length p - String.length p)%nat
    with (String.length s) by lia.
  rewrite substring_app_tail, String.eqb_refl, andb_true_r.
  apply Nat.leb_le. lia.
Qed.

Lemma append_assoc (a b c : string) : ((a ++ b) ++ c = a ++ (b ++ c))%string.
Proof. induction a as [|x a IH]; simpl; [reflexivity | now rewrite IH]. Qed.

(** ** Lists: windows on a reversed list *)

(** The last [n] elements. *)
Definition lastn {A : Type} (n : nat) (xs : list A) : list A :=
  skipn (List.length xs - n) xs.

Lemma lastn_length {A : Type} (n : nat) (xs : list A) :
  List.length (lastn n xs) = Nat.min n (List.length xs).
Proof. unfold lastn. rewrite length_skipn. lia. Qed.

Lemma lastn_short {A : Type} (n : nat) (xs : list A) :
  (List.length xs <= n)%nat -> lastn n xs = xs.
Proof.
  intros H. unfold lastn. now replace (List.length xs - n)%nat with 0%nat by lia.
Qed.

Lemma lastn_app {A : Type} (n : nat) (xs ys : list A) :
  lastn n xs ++ ys = skipn (List.length xs - n) (xs ++ ys).
Proof.
  unfold lastn. rewrite skipn_app.
  now replace (List.length xs - n - List.length xs)%nat with 0%nat by lia.
Qed.

Lemma lastn_app_lastn {A : Type} (n : nat) (xs ys : list A) :
  lastn n (lastn n xs ++ ys) = lastn n (xs ++ ys).
Proof.
  rewrite lastn_app. unfold lastn. rewrite skipn_skipn.
  f_equal. rewrite length_skipn, !length_app. lia.
Qed.

Lemma lastn_map {A B : Type} (f : A -> B) (n : nat) (xs : list A) :
  lastn n (map f xs) = map f (lastn n xs).
Proof. unfold lastn. now rewrite skipn_map, length_map. Qed.


Lemma slice_from {A : Type} (xs : list A) (n : nat) :
  (n <= List.length xs)%nat ->
  slice xs (Z.of_nat n) (Z.of_nat (List.length xs)) = skipn n xs.
Proof.
  intros Hn.
  replace (Z.of_nat (List.length xs))
    with (Z.of_nat n + Z.of_nat (List.length xs - n)) by lia.
  rewrite slice_window by lia. rewrite !Nat2Z.id.
  apply firstn_all2. rewrite length_skipn. lia.
Qed.

(** ** Objects *)

Section ObjectFacts.
Context {V : Type}.

Lemma obj_get_set_same (o : JsObject V) (k : string) (v : V) :
  obj_get (obj_set o k v) k = Some v.
Proof.
  induction o as [|[k' v'] o IH]; simpl.
  - now rewrite String.eqb_refl.
  - destruct (String.eqb k k') eqn:Hk; simpl.
    + now rewrite String.eqb_refl.
    + now rewrite Hk.
Qed.


Lemma obj_set_fresh (o : JsObject V) (k : string) (v : V) :
  obj_get o k = None -> obj_set o k v = o ++ [(k, v)].
Proof.
  induction o as [|[k0 v0] o IH]; simpl; [reflexivity|].
  destruct (String.eqb k k0); [discriminate|].
  intros H. now rewrite IH.
Qed.

Lemma obj_set_length_present (o : JsObject V) (k : string) (v v0 : V) :
  obj_get o k = Some v0 -> List.length (obj_set o k v) = List.length o.
Proof.
  induction o as [|[k1 v1] o IH]; simpl; [discriminate|].
  destruct (String.eqb k k1); simpl; [reflexivity|].
  intros H. now rewrite IH.
Qed.

Lemma obj_get_In (o : JsObject V) (k : string) (v : V) :
  obj_get o k = Some v -> In v (obj_values o).
Proof.
  induction o as [|[k1 v1] o IH]; simpl; [discriminate|].
  destruct (String.eqb k k1); [intros [= ->]; auto | auto].
Qed.

End ObjectFacts.

End JsFacts.

(* ================================================================== *)
(** * The store meets its contract *)
(* ================================================================== *)

Module StoreSpec.
Import Js Types PromptService JsFacts.


(** The record of the [getPrompt] unit test, with usage 5. *)
Definition sample_prompt : Prompt :=
  {| id := "123"; title := "Test Prompt"; content := "Content";
     description := None; tags := ["test"%string]; category := "testing";
     variables := None;
     metadata := {| createdAt := "2023-01-01T00:00:00.000Z";
                    updatedAt := "2023-01-01T00:00:00.000Z";
                    version := "1.0.0"; author := None; usage := Some 5 |} |}.

(** A new service over a mock adapter that holds [data]. *)
Definition mock_world (data : JsObject Prompt) : World (JsObject Prompt) :=
  (fresh, data).

(** The same store once hydrated. *)
Definition hydrated_world (data : JsObject Prompt) : World (JsObject Prompt) :=
  ({| prompts := data; initialized := true |}, data).

Section Hydration.
Context {S : Type} {storage : StorageProvider S}.

Lemma ensureInitialized_initialized (w w0 : World S) :
  ensureInitialized w = (Ok tt, w0) -> initialized (fst w0) = true.
Proof.
  unfold ensureInitialized, initialize, bind, storage_load.
  destruct (initialized (fst w)) eqn:Hi; simpl.
  - intros [= <-]. exact Hi.
  - destruct (load (snd w)) as [[ps|e] s']; simpl; intros [= <-]; reflexivity.
Qed.

Lemma ensureInitialized_idle (w : World S) :
  initialized (fst w) = true -> ensureInitialized w = (Ok tt, w).
Proof. unfold ensureInitialized. now intros ->. Qed.

Lemma world_eta (w : World S) :
  initialized (fst w) = true ->
  w = ({| prompts := prompts (fst w); initialized := true |}, snd w).
Proof. destruct w as [[ps i] s]; simpl; now intros ->. Qed.

End Hydration.

#[local] Ltac hydrate H :=
  unfold getPrompt, createPrompt, updatePrompt, deletePrompt,
         listPrompts, searchPrompts, bind;
  rewrite H; unfold this_prompts, set_prompts, storage_save, ret; simpl.

Section Get.
Context {S : Type} {storage : StorageProvider S}.

Lemma getPrompt_absent (w w0 : World S) (id : string) :
  ensureInitialized w = (Ok tt, w0) ->
  obj_get (prompts (fst w0)) id = None ->
  getPrompt id w = (Ok None, w0).
Proof. intros H Habs. hydrate H. now rewrite Habs. Qed.

Lemma getPrompt_present (w w0 : World S) (id : string) (p : Prompt)
  (r : Result unit) (s' : S) :
  ensureInitialized w = (Ok tt, w0) ->
  obj_get (prompts (fst w0)) id = Some p ->
  let p' := set_usage p (usage_or_0 p + 1) in
  let ps' := obj_set (prompts (fst w0)) id p' in
  save ps' (snd w0) = (r, s') ->
  getPrompt id w
  = (match r with Ok _ => Ok (Some p') | Throw e => Throw e end,
     ({| prompts := ps'; initialized := initialized (fst w0) |}, s')).
Proof.
  intros H Hp p' ps' Hsave. hydrate H. rewrite Hp. simpl.
  fold p'. fold ps'. rewrite Hsave. now destruct r.
Qed.


End Get.



(** ** createPrompt *)

(** The request of the "remove duplicate tags" unit test, with the spec's tag
    list. *)
Definition sample_request : CreatePromptRequest :=
  {| c_title := "Test Prompt"; c_content := "Content"; c_description := None;
     c_tags := ["a"; "b"; "a"]%string; c_category := "testing";
     c_variables := None; c_author := None |}.

Definition sample_uuid : string := "550e8400-e29b-41d4-a716-446655440000".



(** ** updatePrompt *)



Example incrementVersion_1_0_2 : incrementVersion "1.0.2" = "1.0.3"%string.
Proof. reflexivity. Qed.

Example incrementVersion_2_3_9 : incrementVersion "2.3.9" = "2.3.10"%string.
Proof. reflexivity. Qed.

Definition no_update : UpdatePromptRequest :=
  {| u_title := None; u_content := None; u_description := None;
     u_tags := None; u_category := None; u_variables := None |}.

(** The request of the "update prompt fields" unit test. *)
Definition sample_update : UpdatePromptRequest :=
  {| u_title := Some "Updated Title"%string;
     u_content := Some "Updated Content"%string;
     u_description := None;
     u_tags := Some ["updated"; "new"; "updated"]%string;
     u_category := None; u_variables := None |}.

Section Update.
Context {S : Type} {storage : StorageProvider S}.


Lemma updatePrompt_present (w w0 : World S) (now id : string)
  (request : UpdatePromptRequest) (p : Prompt) (r : Result unit) (s' : S) :
  ensureInitialized w = (Ok tt, w0) ->
  obj_get (prompts (fst w0)) id = Some p ->
  let p' := updated_prompt now p request in
  let ps' := obj_set (prompts (fst w0)) id p' in
  save ps' (snd w0) = (r, s') ->
  updatePrompt now id request w
  = (match r with Ok _ => Ok (Some p') | Throw e => Throw e end,
     ({| prompts := ps'; initialized := true |}, s')).
Proof.
  intros H Hp p' ps' Hsave. hydrate H. rewrite Hp. simpl.
  fold p'. fold ps'. rewrite Hsave.
  rewrite (ensureInitialized_initialized w w0 H). now destruct r.
Qed.

End Update.



(** ** A description, once set, survives every update *)

(** A run of updates of one record, each awaited; it stops at the first
    throw.  Each step carries its clock reading. *)
Fixpoint updatePrompt_all {S : Type} {storage : StorageProvider S}
  (id : string) (steps : list (string * UpdatePromptRequest)) : M S unit :=
  match steps with
  | [] => ret tt
  | (now, request) :: rest =>
      bind (updatePrompt now id request) (fun _ => updatePrompt_all id rest)
  end.

Definition described_prompt : Prompt :=
  updated_prompt "2023-02-01T00:00:00.000Z" sample_prompt
    {| u_title := None; u_content := None;
       u_description := Some "A test description"%string;
       u_tags := None; u_category := None; u_variables := None |}.

Lemma updated_prompt_keeps_description (now : string) (p : Prompt)
  (request : UpdatePromptRequest) (d : string) :
  description p = Some d ->
  exists d', description (updated_prompt now p request) = Some d'
             /\ (d' = d \/ u_description request = Some d').
Proof.
  intros Hd. simpl. destruct (u_description request) as [d'|]; eauto.
Qed.

Section UpdateRuns.
Context {S : Type} {storage : StorageProvider S}.

Lemma updatePrompt_all_keeps_description (id : string)
  (steps : list (string * UpdatePromptRequest)) :
  forall (w w' : World S) (r : Result unit) (p : Prompt) (d : string),
    initialized (fst w) = true ->
    obj_get (prompts (fst w)) id = Some p ->
    description p = Some d ->
    updatePrompt_all id steps w = (r, w') ->
    exists q d', obj_get (prompts (fst w')) id = Some q
                 /\ description q = Some d'.
Proof.
  induction steps as [|[now request] rest IH]; intros w w' r p d Hi Hp Hd Hrun.
  - injection Hrun as _ <-. eauto.
  - simpl in Hrun. unfold bind in Hrun.
    destruct (save (obj_set (prompts (fst w)) id (updated_prompt now p request))
                (snd w)) as [r1 s1] eqn:Hsave.
    rewrite (updatePrompt_present w w now id request p r1 s1
               (ensureInitialized_idle w Hi) Hp Hsave) in Hrun.
    destruct (updated_prompt_keeps_description now p request d Hd)
      as (d1 & Hd1 & _).
    destruct r1 as [u|e].
    + eapply IH in Hrun; eauto. simpl. apply obj_get_set_same.
    + injection Hrun as _ <-. simpl.
      exists (updated_prompt now p request), d1.
      split; [apply obj_get_set_same | exact Hd1].
Qed.

End UpdateRuns.

(** C10.  For a stored record with a description: an update whose request
    omits the description returns and stores the record with the description
    unchanged; an update that carries one stores that text; and after any run
    of updates of that record, complete or cut short by a failing [save], the
    record is still stored with a description. *)
Theorem updatePrompt_never_clears_description
  {S : Type} {storage : StorageProvider S}
  (w : World S) (id : string) (p : Prompt) (d : string) :
  initialized (fst w) = true ->
  obj_get (prompts (fst w)) id = Some p ->
  description p = Some d ->
  (forall now request,
      u_description request = None ->
      description (updated_prompt now p request) = Some d
      /\ forall s', save (obj_set (prompts (fst w)) id (updated_prompt now p request))
                      (snd w) = (Ok tt, s') ->
           exists q, fst (updatePrompt now id request w) = Ok (Some q)
                     /\ description q = Some d)
  /\ (forall now request d',
      u_description request = Some d' ->
      description (updated_prompt now p request) = Some d')
  /\ (forall steps r w',
      updatePrompt_all id steps w = (r, w') ->
      exists q d', obj_get (prompts (fst w')) id = Some q
                   /\ description q = Some d').
Proof.
  intros Hi Hp Hd. split; [|split].
  - intros now request Hreq. split; [simpl; now rewrite Hreq|].
    intros s' Hsave. exists (updated_prompt now p request).
    rewrite (updatePrompt_present w w now id request p (Ok tt) s'
               (ensureInitialized_idle w Hi) Hp Hsave).
    split; [reflexivity | simpl; now rewrite Hreq].
  - intros now request d' Hreq. simpl. now rewrite Hreq.
  - intros steps r w' Hrun.
    exact (updatePrompt_all_keeps_description id steps w w' r p d Hi Hp Hd Hrun).
Qed.

(** Two updates of a described record, the first changing only the title,
    the second only the tags: the description is still there. *)
Lemma updatePrompt_never_clears_description_witness :
  exists q d',
    obj_get (prompts (fst (snd (updatePrompt_all "123"
               [("2024-05-05T10:00:00.000Z"%string, sample_update);
                ("2024-05-06T10:00:00.000Z"%string, no_update)]
               (hydrated_world [("123"%string, described_prompt)]))))) "123"
    = Some q
    /\ description q = Some d'.
Proof.
  pose (w := hydrated_world [("123"%string, described_prompt)]).
  destruct (@updatePrompt_never_clears_description _ MockStorageProvider w "123"
              described_prompt "A test description" eq_refl eq_refl eq_refl)
    as (_ & _ & Hruns).
  exact (Hruns [("2024-05-05T10:00:00.000Z"%string, sample_update);
                ("2024-05-06T10:00:00.000Z"%string, no_update)]
               _ _ (surjective_pairing _)).
Defined.

(** ** listPrompts and searchPrompts *)

(** The filters, in the spec's words: [q] occurs in [s], case aside. *)
Definition ci_substring (q s : string) : Prop :=
  exists a b, toLowerCase s = (a ++ toLowerCase q ++ b)%string.

Definition category_ok (filters : SearchFilters) (p : Prompt) : bool :=
  match f_category filters with
  | Some c => contains_ci (category p) c
  | None => true
  end.

Definition tags_ok (filters : SearchFilters) (p : Prompt) : bool :=
  match f_tags filters with
  | Some (t :: ts) =>
      existsb (fun tag => existsb (fun pTag => contains_ci pTag tag) (tags p))
              (t :: ts)
  | _ => true
  end.

Definition title_ok (filters : SearchFilters) (p : Prompt) : bool :=
  match f_title filters with
  | Some t => contains_ci (title p) t || description_contains_ci p t
  | None => true
  end.

Definition listed (filters : SearchFilters) (p : Prompt) : bool :=
  category_ok filters p && tags_ok filters p && title_ok filters p.

Definition found (query : string) (filters : SearchFilters) (p : Prompt) : bool :=
  matches_query query p && category_ok filters p && tags_ok filters p.



Definition search_order (query : string) (a b : Prompt) : Prop :=
  calculateRelevanceScore b query < calculateRelevanceScore a query
  \/ (calculateRelevanceScore a query = calculateRelevanceScore b query
      /\ usage_or_0 b <= usage_or_0 a).

Definition indicator (b : bool) : Z := if b then 1 else 0.

(** [a] stands before [b] in [xs]. *)
Definition ranks_above {A : Type} (a b : A) (xs : list A) : Prop :=
  exists l1 l2 l3, xs = l1 ++ a :: l2 ++ b :: l3.

Lemma contains_ci_iff (s q : string) :
  contains_ci s q = true <-> ci_substring q s.
Proof. apply includes_iff. Qed.

Lemma contains_ci_empty (s : string) : contains_ci s "" = true.
Proof. unfold contains_ci. rewrite includes_unfold. now destruct (toLowerCase s). Qed.

Lemma truthy_false (s : string) : truthy s = false -> s = ""%string.
Proof.
  unfold truthy. destruct (String.eqb_spec s ""); [auto | discriminate].
Qed.

Lemma filter_all {A : Type} (f : A -> bool) (xs : list A) :
  (forall x, f x = true) -> filter f xs = xs.
Proof.
  intros Hf. apply forallb_filter_id, forallb_forall. intros x _. apply Hf.
Qed.

Lemma filter_category_eq (filters : SearchFilters) (ps : list Prompt) :
  filter_category filters ps = filter (category_ok filters) ps.
Proof.
  unfold filter_category, category_ok.
  destruct (f_category filters) as [c|].
  - destruct (truthy c) eqn:Hc; [reflexivity|].
    apply truthy_false in Hc; subst c. symmetry. apply filter_all.
    intros p. apply contains_ci_empty.
  - symmetry. now apply filter_all.
Qed.

Lemma filter_tags_eq (filters : SearchFilters) (ps : list Prompt) :
  filter_tags filters ps = filter (tags_ok filters) ps.
Proof.
  unfold filter_tags, tags_ok.
  destruct (f_tags filters) as [[|t ts]|]; try reflexivity;
    symmetry; now apply filter_all.
Qed.

Lemma filter_title_eq (filters : SearchFilters) (ps : list Prompt) :
  filter_title filters ps = filter (title_ok filters) ps.
Proof.
  unfold filter_title, title_ok.
  destruct (f_title filters) as [c|].
  - destruct (truthy c) eqn:Hc; [reflexivity|].
    apply truthy_false in Hc; subst c. symmetry. apply filter_all.
    intros p. now rewrite contains_ci_empty.
  - symmetry. now apply filter_all.
Qed.

Lemma list_filters_eq (filters : SearchFilters) (ps : list Prompt) :
  filter_title filters (filter_tags filters (filter_category filters ps))
  = filter (listed filters) ps.
Proof.
  rewrite filter_title_eq, filter_tags_eq, filter_category_eq.
  rewrite !filter_filter_and. apply filter_ext. intros p. unfold listed.
  now destruct (category_ok filters p), (tags_ok filters p), (title_ok filters p).
Qed.

Lemma search_filters_eq (query : string) (filters : SearchFilters)
  (ps : list Prompt) :
  filter_tags filters (filter_category filters (filter (matches_query query) ps))
  = filter (found query filters) ps.
Proof.
  rewrite filter_tags_eq, filter_category_eq.
  rewrite !filter_filter_and. apply filter_ext. intros p. unfold found.
  now destruct (matches_query query p), (category_ok filters p), (tags_ok filters p).
Qed.

Lemma some_tag_contains_ci_iff (p : Prompt) (q : string) :
  some_tag_contains_ci p q = true
  <-> exists pTag, In pTag (tags p) /\ ci_substring q pTag.
Proof.
  unfold some_tag_contains_ci. rewrite existsb_exists.
  split; intros (x & Hx & H); exists x; split; auto; now apply contains_ci_iff.
Qed.

Lemma toLowerCase_empty_inv (q : string) :
  toLowerCase q = ""%string -> q = ""%string.
Proof. destruct q; [reflexivity | discriminate]. Qed.

Lemma ci_substring_empty (s : string) : ci_substring "" s.
Proof. apply contains_ci_iff, contains_ci_empty. Qed.

Lemma ci_substring_of_empty (q : string) : ci_substring q "" -> q = ""%string.
Proof.
  intros (a & b & H). simpl in H. apply toLowerCase_empty_inv.
  destruct a; simpl in H; [|discriminate].
  destruct (toLowerCase q); [reflexivity | discriminate].
Qed.

(** An empty description counts as none, as [p.description && ...] has it. *)
Lemma description_contains_ci_iff (p : Prompt) (q : string) :
  description_contains_ci p q = true
  <-> exists d, description p = Some d /\ d <> ""%string /\ ci_substring q d.
Proof.
  unfold description_contains_ci. destruct (description p) as [d|].
  - rewrite andb_true_iff, contains_ci_iff. unfold truthy. split.
    + intros [Hd H]. exists d. repeat split; [|exact H].
      intros ->. discriminate Hd.
    + intros (d' & [= <-] & Hd & H). split; [|exact H].
      now destruct (String.eqb_spec d "").
  - split; [discriminate | intros (d & [=] & _)].
Qed.

Lemma title_or_description_iff (p : Prompt) (q : string) :
  contains_ci (title p) q || description_contains_ci p q = true
  <-> ci_substring q (title p)
      \/ exists d, description p = Some d /\ ci_substring q d.
Proof.
  rewrite orb_true_iff, contains_ci_iff, description_contains_ci_iff. split.
  - intros [H|(d & Hd & _ & H)]; eauto.
  - intros [H|(d & Hd & H)]; [now left|].
    destruct (String.eqb_spec d "") as [->|Hne].
    + left. apply ci_substring_of_empty in H. subst q. apply ci_substring_empty.
    + right. eauto.
Qed.

Lemma category_ok_iff (filters : SearchFilters) (p : Prompt) :
  category_ok filters p = true
  <-> forall c, f_category filters = Some c -> ci_substring c (category p).
Proof.
  unfold category_ok. destruct (f_category filters) as [c|].
  - rewrite contains_ci_iff. split; [now intros H c' [= <-] | auto].
  - split; [discriminate | reflexivity].
Qed.

Lemma tags_ok_iff (filters : SearchFilters) (p : Prompt) :
  tags_ok filters p = true
  <-> forall ts, f_tags filters = Some ts -> ts <> [] ->
        exists tag pTag, In tag ts /\ In pTag (tags p) /\ ci_substring tag pTag.
Proof.
  unfold tags_ok. destruct (f_tags filters) as [[|t ts]|].
  - split; [intros _ ts [= <-] H; now contradiction H | reflexivity].
  - rewrite existsb_exists. split.
    + intros (tag & Htag & H) ts' [= <-] _.
      apply (some_tag_contains_ci_iff p tag) in H as (pTag & HpTag & H).
      eauto.
    + intros H. destruct (H (t :: ts) eq_refl) as (tag & pTag & Htag & HpTag & Hsub);
        [discriminate|].
      exists tag. split; [exact Htag|].
      apply (some_tag_contains_ci_iff p tag). eauto.
  - split; [discriminate | reflexivity].
Qed.


Lemma matches_query_iff (query : string) (p : Prompt) :
  matches_query query p = true
  <-> ci_substring query (title p)
      \/ (exists d, description p = Some d /\ ci_substring query d)
      \/ ci_substring query (content p)
      \/ (exists pTag, In pTag (tags p) /\ ci_substring query pTag)
      \/ ci_substring query (category p).
Proof.
  unfold matches_query.
  do 3 rewrite orb_true_iff.
  rewrite title_or_description_iff, !contains_ci_iff, some_tag_contains_ci_iff.
  tauto.
Qed.

Lemma calculateRelevanceScore_sum (p : Prompt) (query : string) :
  calculateRelevanceScore p query
  = 10 * indicator (contains_ci (title p) query)
    + 5 * indicator (some_tag_contains_ci p query)
    + 3 * indicator (contains_ci (category p) query)
    + 2 * indicator (description_contains_ci p query)
    + 1 * indicator (contains_ci (content p) query).
Proof.
  unfold calculateRelevanceScore, indicator.
  destruct (contains_ci (title p) query), (some_tag_contains_ci p query),
    (contains_ci (category p) query), (description_contains_ci p query),
    (contains_ci (content p) query); reflexivity.
Qed.

(** The comparators decide the two orders. *)




Lemma by_score_then_usage_order (query : string) (a b : Prompt) :
  before (by_score_then_usage query) a b <-> search_order query a b.
Proof.
  unfold before, SortCompare, by_score_then_usage, search_order.
  destruct (calculateRelevanceScore a query =? calculateRelevanceScore b query)
    eqn:E; simpl.
  - apply Z.eqb_eq in E. lia.
  - apply Z.eqb_neq in E. lia.
Qed.

Lemma search_order_trans (query : string) (a b c : Prompt) :
  search_order query a b -> search_order query b c -> search_order query a c.
Proof. unfold search_order. lia. Qed.

Lemma search_order_total (query : string) (a b : Prompt) :
  before (by_score_then_usage query) a b \/ before (by_score_then_usage query) b a.
Proof. rewrite !by_score_then_usage_order. unfold search_order. lia. Qed.

Lemma In_split_two {A : Type} (a b : A) (xs : list A) :
  In a xs -> In b xs -> a <> b ->
  ranks_above a b xs \/ ranks_above b a xs.
Proof.
  intros Ha Hb Hne. apply in_split in Ha as (l1 & l2 & ->).
  apply in_app_or in Hb as [Hb|[Hb|Hb]]; [| congruence |].
  - right. apply in_split in Hb as (m1 & m2 & ->).
    exists m1, m2, l2. now rewrite <- app_assoc.
  - left. apply in_split in Hb as (m1 & m2 & ->). now exists l1, m1, m2.
Qed.

Lemma StronglySorted_ranks {A : Type} (R : A -> A -> Prop) (a b : A) (xs : list A) :
  StronglySorted R xs -> ranks_above a b xs -> R a b.
Proof.
  intros Hs (l1 & l2 & l3 & ->).
  induction l1 as [|x l1 IH]; simpl in Hs.
  - apply StronglySorted_inv in Hs as [_ Hall].
    rewrite Forall_forall in Hall. apply Hall.
    apply in_or_app. right. now left.
  - apply StronglySorted_inv in Hs as [Hs _]. auto.
Qed.

(** The three records of the [listPrompts] unit tests. *)
Definition make_prompt (id title content : string) (tags : list string)
  (category day : string) (usage : Z) : Prompt :=
  {| Types.id := id; Types.title := title; Types.content := content;
     description := None; Types.tags := tags; Types.category := category;
     variables := None;
     metadata := {| createdAt := day; updatedAt := day; version := "1.0.0";
                    author := None; Types.usage := Some usage |} |}.

Definition js_prompt : Prompt :=
  make_prompt "1" "JavaScript Prompt" "JS content"
    ["javascript"; "programming"]%string "coding" "2023-01-01T00:00:00.000Z" 10.

Definition python_prompt : Prompt :=
  make_prompt "2" "Python Prompt" "Python content"
    ["python"; "programming"]%string "coding" "2023-01-02T00:00:00.000Z" 5.

Definition writing_prompt : Prompt :=
  make_prompt "3" "Writing Prompt" "Writing content"
    ["creative"; "writing"]%string "creative" "2023-01-03T00:00:00.000Z" 15.

Definition test_prompts : JsObject Prompt :=
  [("1"%string, js_prompt); ("2"%string, python_prompt);
   ("3"%string, writing_prompt)].



(** Two records of equal usage: one matches "javascript" in its title only,
    the other in a tag only. *)
Definition title_match : Prompt :=
  make_prompt "a" "JavaScript Tutorial" "Basics of the language"
    ["tutorial"]%string "coding" "2023-01-01T00:00:00.000Z" 5.

Definition tag_match : Prompt :=
  make_prompt "b" "Web Basics" "How pages are built"
    ["javascript"]%string "coding" "2023-01-02T00:00:00.000Z" 5.

Definition search_prompts : JsObject Prompt :=
  [("b"%string, tag_match); ("a"%string, title_match)].



(** C5.  [searchPrompts(query, filters)], once the store is hydrated, answers
    with the records in which the query occurs, case aside, in the title, the
    description, the content, some tag or the category, and which also pass
    the category and tag filters.  The score of a record is 10 for a title
    hit, plus 5 for a hit in any tag, plus 3 for the category, plus 2 for the
    description, plus 1 for the content.  The answer is ordered by score
    descending and then by usage descending, so a record of higher score
    stands before one of lower score, and is cut to the window like
    [listPrompts]. *)
Theorem searchPrompts_matches_and_ranks
  {S : Type} {storage : StorageProvider S}
  (w w0 : World S) (query : string) (filters : SearchFilters) :
  ensureInitialized w = (Ok tt, w0) ->
  let all := obj_values (prompts (fst w0)) in
  let hits := filter (found query filters) all in
  let sorted := sort (by_score_then_usage query) hits in
  searchPrompts query filters w
  = (Ok {| items := slice sorted (offset_of filters)
                      (offset_of filters + limit_of filters);
           total := Z.of_nat (List.length hits);
           limit := limit_of filters;
           offset := offset_of filters |}, w0)
  /\ (forall p, In p sorted <->
        In p all
        /\ (ci_substring query (title p)
            \/ (exists d, description p = Some d /\ ci_substring query d)
            \/ ci_substring query (content p)
            \/ (exists pTag, In pTag (tags p) /\ ci_substring query pTag)
            \/ ci_substring query (category p))
        /\ (forall c, f_category filters = Some c -> ci_substring c (category p))
        /\ (forall ts, f_tags filters = Some ts -> ts <> [] ->
              exists tag pTag,
                In tag ts /\ In pTag (tags p) /\ ci_substring tag pTag))
  /\ Permutation sorted hits
  /\ (forall p,
        calculateRelevanceScore p query
        = 10 * indicator (contains_ci (title p) query)
          + 5 * indicator (some_tag_contains_ci p query)
          + 3 * indicator (contains_ci (category p) query)
          + 2 * indicator (description_contains_ci p query)
          + 1 * indicator (contains_ci (content p) query))
  /\ (forall p,
        (contains_ci (title p) query = true <-> ci_substring query (title p))
        /\ (some_tag_contains_ci p query = true
            <-> exists pTag, In pTag (tags p) /\ ci_substring query pTag)
        /\ (contains_ci (category p) query = true
            <-> ci_substring query (category p))
        /\ (description_contains_ci p query = true
            <-> exists d, description p = Some d /\ d <> ""%string
                          /\ ci_substring query d)
        /\ (contains_ci (content p) query = true
            <-> ci_substring query (content p)))
  /\ StronglySorted (search_order query) sorted
  /\ (forall a b, In a sorted -> In b sorted ->
        calculateRelevanceScore b query < calculateRelevanceScore a query ->
        ranks_above a b sorted).
Proof.
  intros H all hits sorted.
  assert (Hperm : Permutation sorted hits) by apply sort_perm.
  assert (Hsorted : StronglySorted (search_order query) sorted).
  { apply Sorted_StronglySorted.
    - intros a b c. apply search_order_trans.
    - apply Sorted_weaken with (R := before (by_score_then_usage query)).
      + intros a b _ _. apply by_score_then_usage_order.
      + apply sort_sorted. apply search_order_total. }
  split; [|split; [|split; [exact Hperm|split; [|split; [|split; [exact Hsorted|]]]]]].
  - hydrate H. rewrite search_filters_eq.
    unfold paginate. rewrite sort_length. reflexivity.
  - intros p. split.
    + intros Hin. apply (Permutation_in _ Hperm) in Hin.
      unfold hits in Hin. apply filter_In in Hin as [Hin Hf].
      unfold found in Hf. rewrite !andb_true_iff in Hf.
      destruct Hf as [[Hq Hc] Ht].
      split; [exact Hin|]. split; [now apply matches_query_iff|].
      split; [now apply category_ok_iff | now apply tags_ok_iff].
    + intros (Hin & Hq & Hc & Ht).
      apply (Permutation_in _ (Permutation_sym Hperm)).
      unfold hits. apply filter_In. split; [exact Hin|].
      unfold found. rewrite !andb_true_iff.
      split; [split|]; [now apply matches_query_iff
                       | now apply category_ok_iff | now apply tags_ok_iff].
  - intros p. apply calculateRelevanceScore_sum.
  - intros p. repeat split;
      try (apply contains_ci_iff); try (apply some_tag_contains_ci_iff);
      try (apply description_contains_ci_iff).
  - intros a b Ha Hb Hlt.
    assert (Hne : a <> b) by (intros ->; lia).
    destruct (In_split_two a b sorted Ha Hb Hne) as [Hab|Hba]; [exact Hab|].
    apply (StronglySorted_ranks _ _ _ _ Hsorted) in Hba.
    unfold search_order in Hba. lia.
Qed.

(** The title-only match scores 10, the tag-only match 5, and with equal
    usage the first is ranked above the second, though stored after it. *)
Example searchPrompts_title_before_tag :
  calculateRelevanceScore title_match "javascript" = 10
  /\ calculateRelevanceScore tag_match "javascript" = 5
  /\ usage_or_0 title_match = usage_or_0 tag_match
  /\ fst (searchPrompts "javascript" no_filters (mock_world search_prompts))
     = Ok {| items := [title_match; tag_match]; total := 2;
             limit := 50; offset := 0 |}.
Proof. repeat split. Qed.

Lemma searchPrompts_matches_and_ranks_witness :
  ranks_above title_match tag_match [title_match; tag_match]
  /\ fst (searchPrompts "javascript" no_filters (mock_world search_prompts))
     = Ok {| items := [title_match; tag_match]; total := 2;
             limit := 50; offset := 0 |}.
Proof.
  pose proof (@searchPrompts_matches_and_ranks _ MockStorageProvider
                (mock_world search_prompts) (hydrated_world search_prompts)
                "javascript" no_filters eq_refl) as Hspec.
  cbv zeta in Hspec.
  destruct Hspec as (Hrun & _ & _ & _ & _ & _ & Hrank).
  split; [|rewrite Hrun; reflexivity].
  apply (Hrank title_match tag_match); [now left | right; now left | reflexivity].
Defined.

End StoreSpec.

(* ================================================================== *)
(** * The adapter meets its contract *)
(* ================================================================== *)

Module AdapterSpec.
Import Js Types FileStorage JsFacts.

(** ** Validation of one record *)

Definition is_object_value (v : JsValue) : Prop :=
  match v with
  | VObject _ | VArray _ => True
  | _ => False
  end.








(** ** [validateAndTransformData] keeps exactly the well-formed records *)

Definition keep (result : JsObject JsValue) (entry : string * JsValue)
  : JsObject JsValue :=
  if isValidPrompt (snd entry) then obj_set result (fst entry) (snd entry)
  else result.

Definition kept_records (data : JsValue) : JsObject JsValue :=
  if falsy data || negb (is_ty_object (typeof (Some data))) then []
  else fold_left keep (Object_entries data) [].

Definition skip_warning (entry : string * JsValue) : LogEntry :=
  console_warn ("Invalid prompt data for key " ++ fst entry ++ ", skipping").

Definition skip_warnings (data : JsValue) : list LogEntry :=
  if falsy data || negb (is_ty_object (typeof (Some data))) then []
  else map skip_warning
         (filter (fun entry => negb (isValidPrompt (snd entry))) (Object_entries data)).

Definition with_console (w : World) (entries : list LogEntry) : World :=
  {| fs := fs w; faults := faults w; clock := clock w; ticks := ticks w;
     console := console w ++ entries |}.

Lemma with_console_nil (w : World) : with_console w [] = w.
Proof. destruct w; unfold with_console; simpl. now rewrite app_nil_r. Qed.

Lemma with_console_app (w : World) (xs ys : list LogEntry) :
  with_console (with_console w xs) ys = with_console w (xs ++ ys).
Proof. unfold with_console; simpl. now rewrite app_assoc. Qed.

Lemma validate_fold (entries : JsObject JsValue) :
  forall (acc : IO (JsObject JsValue)) (w w0 : World) (r0 : JsObject JsValue),
    acc w = (Ok r0, w0) ->
    fold_left
      (fun (acc : IO (JsObject JsValue)) (entry : string * JsValue) =>
         bind acc (fun result =>
           let (key, value) := entry in
           if isValidPrompt value then ret (obj_set result key value)
           else bind (log (console_warn ("Invalid prompt data for key " ++ key
                                         ++ ", skipping")))
                  (fun _ => ret result)))
      entries acc w
    = (Ok (fold_left keep entries r0),
       with_console w0
         (map skip_warning
            (filter (fun entry => negb (isValidPrompt (snd entry))) entries))).
Proof.
  induction entries as [|[key value] entries IH]; intros acc w w0 r0 Hacc; simpl.
  - now rewrite with_console_nil.
  - unfold keep at 2. simpl.
    destruct (isValidPrompt value) eqn:Hv; simpl.
    + apply IH. unfold bind. now rewrite Hacc.
    + rewrite (IH _ w (with_console w0 [skip_warning (key, value)]) r0).
      * now rewrite with_console_app.
      * unfold bind. rewrite Hacc. reflexivity.
Qed.

Lemma validateAndTransformData_run (data : JsValue) (w : World) :
  validateAndTransformData data w
  = (Ok (kept_records data), with_console w (skip_warnings data)).
Proof.
  unfold validateAndTransformData, kept_records, skip_warnings.
  destruct (falsy data || negb (is_ty_object (typeof (Some data)))).
  - unfold ret. now rewrite with_console_nil.
  - now apply validate_fold.
Qed.

Lemma obj_get_None_iff {V : Type} (o : JsObject V) (k : string) :
  obj_get o k = None <-> ~ In k (obj_keys o).
Proof.
  induction o as [|[k' v] o IH]; simpl; [tauto|].
  destruct (String.eqb_spec k k') as [->|Hne].
  - split; [discriminate | intros H; exfalso; auto].
  - rewrite IH. split; [intros H [?|?]; congruence || auto | auto].
Qed.

Lemma keep_fold_filter (entries acc : JsObject JsValue) :
  NoDup (obj_keys (acc ++ entries)) ->
  fold_left keep entries acc
  = acc ++ filter (fun entry => isValidPrompt (snd entry)) entries.
Proof.
  revert acc; induction entries as [|[key value] entries IH]; intros acc Hnd; simpl.
  - now rewrite app_nil_r.
  - unfold keep at 2. simpl.
    assert (Hnd' : NoDup (obj_keys ((acc ++ [(key, value)]) ++ entries)))
      by now rewrite <- app_assoc.
    destruct (isValidPrompt value) eqn:Hv.
    + rewrite obj_set_fresh.
      * rewrite IH by exact Hnd'. now rewrite <- app_assoc.
      * apply obj_get_None_iff. unfold obj_keys in *.
        rewrite map_app in Hnd. simpl in Hnd.
        apply NoDup_remove_2 in Hnd. intros Hin. apply Hnd.
        apply in_or_app. now left.
    + apply IH. unfold obj_keys in *. rewrite map_app in *. simpl in Hnd.
      now apply NoDup_remove_1 in Hnd.
Qed.



(** ** Pruning, as a function of the directory listing *)

Definition backup_names (entries : JsObject string) : list string :=
  filter is_backup_name (obj_keys entries).

(** The names [cleanupOldBackups] unlinks. *)
Definition doomed (names : list string) : list string :=
  let backupFiles := rev (sort_strings (filter is_backup_name names)) in
  if (10 <? List.length backupFiles)%nat then skipn 10 backupFiles else [].

Definition prune (entries : JsObject string) : JsObject string :=
  fold_left obj_delete (doomed (obj_keys entries)) entries.

Definition mem (x : string) (xs : list string) : bool := existsb (String.eqb x) xs.

Lemma mem_iff (x : string) (xs : list string) : mem x xs = true <-> In x xs.
Proof.
  unfold mem. rewrite existsb_exists. split.
  - intros (y & Hy & H). apply String.eqb_eq in H. now subst.
  - intros H. exists x. split; [exact H | apply String.eqb_refl].
Qed.

Lemma fold_obj_delete {V : Type} (names : list string) (entries : JsObject V) :
  fold_left obj_delete names entries
  = filter (fun kv => negb (mem (fst kv) names)) entries.
Proof.
  revert entries; induction names as [|k names IH]; intros entries; simpl.
  - symmetry. now apply forallb_filter_id, forallb_forall.
  - rewrite IH. unfold obj_delete. rewrite filter_filter_and.
    apply filter_ext. intros [k' v]. simpl. rewrite (String.eqb_sym k' k).
    now destruct (String.eqb k k'), (mem k' names).
Qed.

Lemma obj_keys_filter {V : Type} (f : string -> bool) (entries : JsObject V) :
  obj_keys (filter (fun kv => f (fst kv)) entries) = filter f (obj_keys entries).
Proof.
  induction entries as [|[k v] entries IH]; simpl; [reflexivity|].
  destruct (f k); simpl; now rewrite IH.
Qed.

Lemma backup_names_prune (entries : JsObject string) :
  backup_names (prune entries)
  = filter (fun k => negb (mem k (doomed (obj_keys entries)))) (backup_names entries).
Proof.
  unfold backup_names, prune. rewrite fold_obj_delete.
  rewrite (obj_keys_filter (fun k => negb (mem k (doomed (obj_keys entries))))).
  rewrite !filter_filter_and. apply filter_ext. intros k. apply andb_comm.
Qed.

Lemma StronglySorted_app_inv {A : Type} (R : A -> A -> Prop) (l1 l2 : list A) :
  StronglySorted R (l1 ++ l2) ->
  forall a b, In a l1 -> In b l2 -> R a b.
Proof.
  induction l1 as [|x l1 IH]; simpl; intros Hs a b Ha Hb; [contradiction|].
  apply StronglySorted_inv in Hs as [Hs Hall].
  destruct Ha as [<-|Ha]; [|now apply IH].
  rewrite Forall_forall in Hall. apply Hall, in_or_app. now right.
Qed.

Lemma StronglySorted_snoc {A : Type} (R : A -> A -> Prop) (l : list A) (x : A) :
  StronglySorted R l -> Forall (fun y => R y x) l -> StronglySorted R (l ++ [x]).
Proof.
  induction 1 as [|y l Hs IH Hall]; simpl; intros Hx.
  - repeat constructor.
  - apply Forall_inv_tail in Hx as Hx'. apply Forall_inv in Hx.
    constructor; [now apply IH|].
    apply Forall_app. split; [exact Hall | now constructor].
Qed.

Lemma StronglySorted_rev {A : Type} (R : A -> A -> Prop) (l : list A) :
  StronglySorted R l -> StronglySorted (fun a b => R b a) (rev l).
Proof.
  induction 1 as [|x l Hs IH Hall]; simpl; [constructor|].
  apply StronglySorted_snoc; [exact IH|].
  apply Forall_forall. intros y Hy. apply in_rev in Hy.
  rewrite Forall_forall in Hall. now apply Hall.
Qed.

Lemma StronglySorted_skipn {A : Type} (R : A -> A -> Prop) (n : nat) (l : list A) :
  StronglySorted R l -> StronglySorted R (skipn n l).
Proof.
  revert l; induction n as [|n IH]; intros l Hs; [exact Hs|].
  destruct l as [|x l]; [constructor|].
  simpl. apply IH. now apply StronglySorted_inv in Hs.
Qed.

Lemma NoDup_app_disjoint {A : Type} (l1 l2 : list A) :
  NoDup (l1 ++ l2) -> forall a, In a l1 -> In a l2 -> False.
Proof.
  induction l1 as [|x l1 IH]; simpl; intros Hnd a Ha Hb; [contradiction|].
  apply NoDup_cons_iff in Hnd as [Hx Hnd].
  destruct Ha as [<-|Ha]; [|exact (IH Hnd a Ha Hb)].
  apply Hx, in_or_app. now right.
Qed.

Lemma str_lt_NoDup (l : list string) : StronglySorted str_lt l -> NoDup l.
Proof.
  induction 1 as [|x l Hs IH Hall]; constructor; [|exact IH].
  intros Hin. rewrite Forall_forall in Hall.
  exact (str_lt_irrefl x (Hall x Hin)).
Qed.

Lemma str_le_neq_lt (a b : string) : str_le a b -> a <> b -> str_lt a b.
Proof.
  unfold str_le, str_lt. intros Hle Hne.
  destruct (String.compare a b) eqn:E; try congruence.
  now apply String.compare_eq_iff in E.
Qed.

(** The backup names sorted as [cleanupOldBackups] sorts them: latest
    first. *)
Definition latest_first (entries : JsObject string) : list string :=
  rev (sort_strings (backup_names entries)).

Lemma latest_first_perm (entries : JsObject string) :
  Permutation (latest_first entries) (backup_names entries).
Proof.
  unfold latest_first. rewrite <- Permutation_rev. apply sort_strings_perm.
Qed.

Lemma latest_first_sorted (entries : JsObject string) :
  StronglySorted (fun a b => str_le b a) (latest_first entries).
Proof. apply StronglySorted_rev, sort_strings_sorted. Qed.

Lemma doomed_eq (entries : JsObject string) :
  doomed (obj_keys entries) = skipn 10 (latest_first entries).
Proof.
  unfold doomed. fold (backup_names entries). fold (latest_first entries).
  destruct (10 <? List.length (latest_first entries))%nat eqn:E; [reflexivity|].
  apply Nat.ltb_ge in E. symmetry. apply skipn_all2. lia.
Qed.

Lemma backup_names_NoDup (entries : JsObject string) :
  NoDup (obj_keys entries) -> NoDup (backup_names entries).
Proof. apply NoDup_filter. Qed.

Lemma prune_keeps_latest (entries : JsObject string) :
  NoDup (obj_keys entries) ->
  Permutation (backup_names (prune entries)) (firstn 10 (latest_first entries)).
Proof.
  intros Hnd. pose proof (backup_names_NoDup entries Hnd) as HndB.
  assert (HndL : NoDup (latest_first entries))
    by (apply (Permutation_NoDup (Permutation_sym (latest_first_perm entries)) HndB)).
  rewrite backup_names_prune, doomed_eq.
  apply NoDup_Permutation.
  - now apply NoDup_filter.
  - rewrite <- (firstn_skipn 10 (latest_first entries)) in HndL.
    now apply NoDup_app_remove_r in HndL.
  - intros k. rewrite filter_In, negb_true_iff.
    rewrite <- (Permutation_in' eq_refl (latest_first_perm entries)).
    rewrite <- (firstn_skipn 10 (latest_first entries)) at 1.
    rewrite in_app_iff. split.
    + intros [[H|H] Hmem]; [exact H|].
      apply mem_iff in H. congruence.
    + intros H. split; [now left|].
      destruct (mem k (skipn 10 (latest_first entries))) eqn:Hmem; [|reflexivity].
      apply mem_iff in Hmem.
      rewrite <- (firstn_skipn 10 (latest_first entries)) in HndL.
      exfalso. exact (NoDup_app_disjoint _ _ HndL k H Hmem).
Qed.

Lemma prune_count (entries : JsObject string) :
  NoDup (obj_keys entries) ->
  List.length (backup_names (prune entries))
  = Nat.min 10 (List.length (backup_names entries)).
Proof.
  intros Hnd. rewrite (Permutation_length (prune_keeps_latest entries Hnd)).
  rewrite length_firstn. f_equal.
  apply Permutation_length, latest_first_perm.
Qed.

Lemma prune_deletes_older (entries : JsObject string) (kept gone : string) :
  NoDup (obj_keys entries) ->
  In kept (backup_names (prune entries)) ->
  In gone (backup_names entries) ->
  ~ In gone (backup_names (prune entries)) ->
  str_lt gone kept.
Proof.
  intros Hnd Hkept Hgone Hnot.
  pose proof (prune_keeps_latest entries Hnd) as Hperm.
  apply (Permutation_in _ Hperm) in Hkept.
  assert (Hgone' : In gone (skipn 10 (latest_first entries))).
  { apply (Permutation_in _ (Permutation_sym (latest_first_perm entries))) in Hgone.
    rewrite <- (firstn_skipn 10 (latest_first entries)) in Hgone.
    apply in_app_or in Hgone as [H|H]; [|exact H].
    exfalso. apply Hnot. now apply (Permutation_in _ (Permutation_sym Hperm)). }
  pose proof (latest_first_sorted entries) as Hs.
  rewrite <- (firstn_skipn 10 (latest_first entries)) in Hs.
  apply str_le_neq_lt.
  - exact (StronglySorted_app_inv _ _ _ Hs kept gone Hkept Hgone').
  - intros ->. apply Hnot. now apply (Permutation_in _ (Permutation_sym Hperm)).
Qed.

Lemma prune_other_files (entries : JsObject string) (file : string) :
  is_backup_name file = false ->
  obj_get (prune entries) file = obj_get entries file.
Proof.
  intros Hfile. unfold prune. rewrite fold_obj_delete.
  assert (Hnot : mem file (doomed (obj_keys entries)) = false).
  { destruct (mem file (doomed (obj_keys entries))) eqn:E; [|reflexivity].
    apply mem_iff in E. rewrite doomed_eq in E.
    assert (Hin : In file (latest_first entries)).
    { rewrite <- (firstn_skipn 10 (latest_first entries)).
      apply in_or_app. now right. }
    apply (Permutation_in _ (latest_first_perm entries)) in Hin.
    unfold backup_names in Hin. apply filter_In in Hin as [_ Hin]. congruence. }
  revert Hnot. generalize (doomed (obj_keys entries)) as names.
  intros names Hnot.
  induction entries as [|[k v] entries IH]; simpl; [reflexivity|].
  destruct (String.eqb_spec file k) as [->|Hne].
  - rewrite Hnot. simpl. now rewrite String.eqb_refl.
  - destruct (mem k names); simpl.
    + apply IH.
    + destruct (String.eqb_spec file k); [contradiction | apply IH].
Qed.

(** ** Runs of the adapter's operations *)

Definition backup_entries (w : World) : JsObject string :=
  match backupDir (fs w) with
  | Some entries => entries
  | None => []
  end.

Definition set_backups (w : World) (entries : JsObject string) : World :=
  with_fs w {| dataDir := dataDir (fs w); dataFile := dataFile (fs w);
               backupDir := Some entries |}.

(** The world once [backup] has copied the data file, before pruning. *)
Definition after_copy (w : World) (text : string) : World :=
  {| fs := {| dataDir := true; dataFile := Some text;
              backupDir := Some (obj_set (backup_entries w)
                                   (backupFileName (clock w (ticks w))) text) |};
     faults := faults w; clock := clock w; ticks := Datatypes.S (ticks w);
     console := console w |}.

(** The world once [save] has written the data file. *)
Definition written (w : World) (text : string) : World :=
  with_fs w {| dataDir := true; dataFile := Some text;
               backupDir := backupDir (fs w) |}.

(** What an operation leaves alone whatever happens to the backups. *)
Definition frame (w w' : World) : Prop :=
  faults w' = faults w /\ clock w' = clock w /\ ticks w' = ticks w
  /\ dataDir (fs w') = dataDir (fs w) /\ dataFile (fs w') = dataFile (fs w)
  /\ (backupDir (fs w) <> None -> backupDir (fs w') <> None).

Lemma frame_refl (w : World) : frame w w.
Proof. unfold frame. tauto. Qed.

Lemma frame_trans (w1 w2 w3 : World) : frame w1 w2 -> frame w2 w3 -> frame w1 w3.
Proof.
  unfold frame. intros (F1 & C1 & T1 & D1 & X1 & B1) (F2 & C2 & T2 & D2 & X2 & B2).
  repeat split; try congruence. auto.
Qed.

Lemma set_backups_same (w : World) (entries : JsObject string) :
  backupDir (fs w) = Some entries -> set_backups w entries = w.
Proof.
  destruct w as [[d f b] fl c tk co]. simpl. intros ->. reflexivity.
Qed.

Lemma obj_get_of_key {V : Type} (o : JsObject V) (k : string) :
  In k (obj_keys o) -> exists v, obj_get o k = Some v.
Proof.
  intros Hin. destruct (obj_get o k) eqn:E; [eauto|].
  now apply obj_get_None_iff in E.
Qed.

Lemma unlink_frame (file : string) (w : World) : frame w (snd (unlink file w)).
Proof.
  unfold unlink.
  destruct (unlink_fails (faults w) file); [apply frame_refl|].
  destruct (backupDir (fs w)) as [entries|] eqn:E; [|apply frame_refl].
  destruct (obj_get entries file); [|apply frame_refl].
  unfold frame. simpl. repeat split. discriminate.
Qed.

Lemma for_each_unlink_frame (names : list string) (w : World) :
  frame w (snd (for_each unlink names w)).
Proof.
  revert w; induction names as [|x names IH]; intros w; simpl.
  - apply frame_refl.
  - unfold bind. pose proof (unlink_frame x w) as Hx.
    destruct (unlink x w) as [[u|e] w1]; simpl in *; [|exact Hx].
    eapply frame_trans; [exact Hx | apply IH].
Qed.

Lemma for_each_unlink_run (names : list string) :
  forall (w : World) (entries : JsObject string),
    backupDir (fs w) = Some entries ->
    (forall f, In f names -> unlink_fails (faults w) f = false) ->
    NoDup names ->
    (forall f, In f names -> In f (obj_keys entries)) ->
    for_each unlink names w
    = (Ok tt, set_backups w (fold_left obj_delete names entries)).
Proof.
  induction names as [|x names IH]; intros w entries Hdir Hfault Hnd Hin; simpl.
  - unfold ret. now rewrite set_backups_same.
  - apply NoDup_cons_iff in Hnd as [Hx Hnd].
    destruct (obj_get_of_key entries x (Hin x (or_introl eq_refl))) as [v Hv].
    unfold bind, unlink at 1.
    rewrite (Hfault x (or_introl eq_refl)), Hdir, Hv.
    rewrite (IH _ (obj_delete entries x)); try reflexivity; auto.
    + intros f Hf. simpl. apply Hfault. now right.
    + intros f Hf. unfold obj_delete.
      rewrite (obj_keys_filter (fun k => negb (String.eqb x k))).
      apply filter_In. split; [apply Hin; now right|].
      destruct (String.eqb_spec x f) as [->|]; [contradiction | reflexivity].
Qed.

Lemma doomed_NoDup (entries : JsObject string) :
  NoDup (obj_keys entries) -> NoDup (doomed (obj_keys entries)).
Proof.
  intros Hnd. rewrite doomed_eq.
  assert (HndL : NoDup (latest_first entries)).
  { apply (Permutation_NoDup (Permutation_sym (latest_first_perm entries))).
    now apply backup_names_NoDup. }
  rewrite <- (firstn_skipn 10 (latest_first entries)) in HndL.
  now apply NoDup_app_remove_l in HndL.
Qed.

Lemma doomed_In (entries : JsObject string) (f : string) :
  In f (doomed (obj_keys entries)) -> In f (obj_keys entries).
Proof.
  rewrite doomed_eq. intros H.
  assert (Hin : In f (latest_first entries)).
  { rewrite <- (firstn_skipn 10 (latest_first entries)).
    apply in_or_app. now right. }
  apply (Permutation_in _ (latest_first_perm entries)) in Hin.
  unfold backup_names in Hin. now apply filter_In in Hin.
Qed.

(** The [try] block of [cleanupOldBackups]. *)
Definition pruning : IO unit :=
  bind readdir (fun files =>
    let backupFiles := rev (sort_strings (filter is_backup_name files)) in
    if (10 <? List.length backupFiles)%nat
    then for_each unlink
           (slice backupFiles 10 (Z.of_nat (List.length backupFiles)))
    else ret tt).

Definition prune_warning : LogEntry :=
  console_warn "Warning: Could not cleanup old backups:".

Lemma cleanupOldBackups_unfold (w : World) :
  cleanupOldBackups w
  = match pruning w with
    | (Ok a, w') => (Ok a, w')
    | (Throw e, w') => (Ok tt, with_console w' [prune_warning])
    end.
Proof. reflexivity. Qed.

Lemma pruning_run (w : World) (entries : JsObject string) :
  backupDir (fs w) = Some entries ->
  NoDup (obj_keys entries) ->
  readdir_fails (faults w) = false ->
  (forall f, unlink_fails (faults w) f = false) ->
  pruning w = (Ok tt, set_backups w (prune entries)).
Proof.
  intros Hdir Hnd Hread Hunlink.
  unfold pruning, bind, readdir. rewrite Hread, Hdir.
  fold (backup_names entries). fold (latest_first entries).
  destruct (10 <? List.length (latest_first entries))%nat eqn:E.
  - apply Nat.ltb_lt in E.
    change 10 with (Z.of_nat 10).
    rewrite (slice_from (latest_first entries) 10) by lia.
    rewrite <- doomed_eq.
    apply for_each_unlink_run; auto.
    + now apply doomed_NoDup.
    + apply doomed_In.
  - unfold ret, prune. rewrite doomed_eq.
    apply Nat.ltb_ge in E. rewrite skipn_all2 by lia. simpl.
    now rewrite set_backups_same.
Qed.

Lemma pruning_frame (w : World) : frame w (snd (pruning w)).
Proof.
  unfold pruning, bind, readdir.
  destruct (readdir_fails (faults w)); [apply frame_refl|].
  destruct (backupDir (fs w)); [|apply frame_refl].
  match goal with
  | |- context [if ?c then _ else _] => destruct c
  end; [apply for_each_unlink_frame | apply frame_refl].
Qed.

Lemma cleanupOldBackups_never_throws (w : World) :
  fst (cleanupOldBackups w) = Ok tt.
Proof.
  rewrite cleanupOldBackups_unfold.
  destruct (pruning w) as [[[]|e] w']; reflexivity.
Qed.

Lemma cleanupOldBackups_frame (w : World) :
  frame w (snd (cleanupOldBackups w)).
Proof.
  rewrite cleanupOldBackups_unfold. pose proof (pruning_frame w) as H.
  destruct (pruning w) as [[u|e] w']; simpl in *; [exact H|].
  eapply frame_trans; [exact H|]. unfold frame. simpl. tauto.
Qed.

Lemma cleanupOldBackups_run (w : World) (entries : JsObject string) :
  backupDir (fs w) = Some entries ->
  NoDup (obj_keys entries) ->
  readdir_fails (faults w) = false ->
  (forall f, unlink_fails (faults w) f = false) ->
  cleanupOldBackups w = (Ok tt, set_backups w (prune entries)).
Proof.
  intros Hdir Hnd Hread Hunlink.
  now rewrite cleanupOldBackups_unfold, (pruning_run w entries).
Qed.

Lemma cleanupOldBackups_readdir_fails (w : World) :
  readdir_fails (faults w) = true ->
  cleanupOldBackups w = (Ok tt, with_console w [prune_warning]).
Proof.
  intros H. rewrite cleanupOldBackups_unfold.
  unfold pruning, bind, readdir. now rewrite H.
Qed.

Lemma cleanupOldBackups_warns (w w' : World) (e : Error) :
  pruning w = (Throw e, w') ->
  console (snd (cleanupOldBackups w)) = console w' ++ [prune_warning].
Proof. intros H. rewrite cleanupOldBackups_unfold, H. reflexivity. Qed.

(** [backup] with the data file in place: copy, then prune. *)
Lemma backup_run (w : World) (text : string) :
  dataDir (fs w) = true ->
  dataFile (fs w) = Some text ->
  backupDir (fs w) <> None \/ mkdir_fails (faults w) = false ->
  copyFile_fails (faults w) = false ->
  backup w = (Ok tt, snd (cleanupOldBackups (after_copy w text))).
Proof.
  intros Hdd Hfile Hdir Hcopy.
  pose proof (cleanupOldBackups_never_throws (after_copy w text)) as Hok.
  unfold backup, try_catch, bind, ensureDirectoryExists, fileExists, now, copyFile.
  destruct w as [[d f b] fl c tk co]. simpl in *. subst d f.
  destruct b as [entries|]; simpl.
  - rewrite Hcopy. simpl.
    unfold after_copy, backup_entries in Hok. simpl in Hok.
    unfold after_copy, backup_entries, with_fs. simpl.
    destruct (cleanupOldBackups _) as [[[]|e] w']; simpl in *;
      [reflexivity | discriminate].
  - destruct Hdir as [Hdir|Hmk]; [now contradiction Hdir|].
    rewrite Hmk. simpl. rewrite Hcopy. simpl.
    unfold after_copy, backup_entries in Hok. simpl in Hok.
    unfold after_copy, backup_entries, with_fs. simpl.
    destruct (cleanupOldBackups _) as [[[]|e] w']; simpl in *;
      [reflexivity | discriminate].
Qed.

(** ** Names of backups *)

Lemma backupFileName_is_backup_name (timestamp : string) :
  is_backup_name (backupFileName timestamp) = true.
Proof.
  unfold is_backup_name, backupFileName.
  rewrite startsWith_app. rewrite <- append_assoc. now rewrite endsWith_app.
Qed.

Lemma backupFileName_compare (t1 t2 : string) :
  iso_shape t1 = true -> iso_shape t2 = true ->
  String.compare (backupFileName t1) (backupFileName t2) = String.compare t1 t2.
Proof.
  intros H1 H2. unfold backupFileName.
  pose proof (iso_shape_aligned 0 t1 t2 H1 H2) as Hal.
  rewrite compare_app_prefix, compare_app_suffix.
  - now apply replace_colon_dot_compare.
  - rewrite !replace_colon_dot_length. now apply aligned_length.
Qed.

Lemma backupFileName_sorted (ts : list string) :
  Forall (fun t => iso_shape t = true) ts ->
  StronglySorted str_lt ts ->
  StronglySorted str_lt (map backupFileName ts).
Proof.
  intros Hiso Hs. induction Hs as [|t ts Hs IH Hall]; simpl; constructor.
  - apply IH. now apply Forall_inv_tail in Hiso.
  - apply Forall_forall. intros name Hname.
    apply in_map_iff in Hname as (t' & <- & Ht').
    rewrite Forall_forall in Hall, Hiso. unfold str_lt.
    rewrite backupFileName_compare; [now apply Hall | |];
      apply Hiso; simpl; auto.
Qed.

(** ** Pruning a directory of backups listed oldest first *)

Lemma filter_none {A : Type} (f : A -> bool) (xs : list A) :
  (forall x, In x xs -> f x = false) -> filter f xs = [].
Proof.
  induction xs as [|x xs IH]; simpl; intros H; [reflexivity|].
  rewrite (H x (or_introl eq_refl)). apply IH. auto.
Qed.

Lemma filter_not_mem_app (xs ys : list string) :
  NoDup (xs ++ ys) ->
  filter (fun k => negb (mem k (rev xs))) (xs ++ ys) = ys.
Proof.
  intros Hnd. rewrite filter_app, filter_none.
  - simpl. apply forallb_filter_id, forallb_forall. intros k Hk.
    apply negb_true_iff. destruct (mem k (rev xs)) eqn:E; [|reflexivity].
    apply mem_iff in E. apply in_rev in E.
    exfalso. exact (NoDup_app_disjoint _ _ Hnd k E Hk).
  - intros k Hk. apply negb_false_iff, mem_iff. now apply in_rev in Hk.
Qed.

Lemma filter_drop_prefix (names : list string) (m : nat) :
  NoDup names ->
  filter (fun k => negb (mem k (rev (firstn m names)))) names = skipn m names.
Proof.
  intros Hnd. pose proof (firstn_skipn m names) as E.
  transitivity (filter (fun k => negb (mem k (rev (firstn m names))))
                  (firstn m names ++ skipn m names)); [now rewrite E|].
  apply filter_not_mem_app. now rewrite E.
Qed.

Lemma prune_oldest_first (entries : JsObject string) :
  StronglySorted str_lt (obj_keys entries) ->
  Forall (fun k => is_backup_name k = true) (obj_keys entries) ->
  obj_keys (prune entries) = lastn 10 (obj_keys entries).
Proof.
  intros Hs Hall.
  assert (Hnames : backup_names entries = obj_keys entries).
  { unfold backup_names. apply forallb_filter_id, forallb_forall.
    rewrite Forall_forall in Hall. exact Hall. }
  assert (Hlatest : latest_first entries = rev (obj_keys entries)).
  { unfold latest_first. rewrite Hnames. f_equal. apply sort_strings_id.
    clear Hall Hnames. induction Hs as [|k ks Hs IH Hk]; constructor; [exact IH|].
    apply Forall_forall. intros k' Hk'. rewrite Forall_forall in Hk.
    apply str_lt_le. now apply Hk. }
  unfold prune. rewrite fold_obj_delete.
  rewrite (obj_keys_filter (fun k => negb (mem k (doomed (obj_keys entries))))).
  rewrite doomed_eq, Hlatest, skipn_rev.
  apply filter_drop_prefix. now apply str_lt_NoDup.
Qed.

(** Nothing in the way of reading and writing the data file or of copying
    it; pruning may still fail. *)
Definition data_path_healthy (w : World) : Prop :=
  mkdir_fails (faults w) = false
  /\ readFile_fails (faults w) = false
  /\ writeFile_fails (faults w) = false
  /\ copyFile_fails (faults w) = false.

(** Pruning cannot fail either. *)
Definition healthy (w : World) : Prop :=
  data_path_healthy w
  /\ readdir_fails (faults w) = false
  /\ (forall f, unlink_fails (faults w) f = false).


(** [data || {}] *)
Definition or_empty (data : JsValue) : JsValue :=
  if falsy data then VObject [] else data.

Definition load_failure (e : Error) : Error :=
  {| message := "Failed to load prompts: " ++ message e |}.

Section Runs.
Variable YAML_parse : string -> Result JsValue.
Variable YAML_stringify : JsValue -> string.

Lemma save_run_existing (w : World) (text : string) (prompts : JsObject JsValue) :
  dataDir (fs w) = true ->
  dataFile (fs w) = Some text ->
  backupDir (fs w) <> None \/ mkdir_fails (faults w) = false ->
  copyFile_fails (faults w) = false ->
  writeFile_fails (faults w) = false ->
  save YAML_stringify prompts w
  = (Ok tt, written (snd (cleanupOldBackups (after_copy w text)))
              (YAML_stringify (VObject prompts))).
Proof.
  intros Hdd Hfile Hdir Hcopy Hwrite.
  destruct (cleanupOldBackups_frame (after_copy w text))
    as (Hf & _ & _ & Hd & _).
  unfold save, try_catch, bind.
  unfold ensureDirectoryExists at 1. rewrite Hdd.
  unfold fileExists at 1. rewrite Hfile.
  rewrite (backup_run w text Hdd Hfile Hdir Hcopy).
  unfold writeFile. rewrite Hf, Hd. simpl. rewrite Hwrite. reflexivity.
Qed.


Lemma load_run (w : World) (text : string) :
  dataDir (fs w) = true ->
  dataFile (fs w) = Some text ->
  readFile_fails (faults w) = false ->
  load YAML_parse YAML_stringify w
  = match YAML_parse text with
    | Ok data => (Ok (kept_records (or_empty data)),
                  with_console w (skip_warnings (or_empty data)))
    | Throw e => (Throw (load_failure e),
                  with_console w [console_error "Error loading prompts:" e])
    end.
Proof.
  intros Hdd Hfile Hread.
  unfold load, try_catch, bind.
  unfold ensureDirectoryExists at 1. rewrite Hdd.
  unfold fileExists at 1. rewrite Hfile. simpl.
  unfold readFile. rewrite Hfile, Hread.
  destruct (YAML_parse text) as [data|e].
  - fold (or_empty data). now rewrite validateAndTransformData_run.
  - reflexivity.
Qed.

End Runs.


Section RoundTrip.
Variable YAML_parse : string -> Result JsValue.
Variable YAML_stringify : JsValue -> string.




End RoundTrip.


(** ** Backup rotation over a run of saves *)

(** The next [n] clock readings. *)
Definition readings (w : World) (n : nat) : list string :=
  map (clock w) (seq (ticks w) n).

Definition all_iso (ts : list string) : Prop :=
  Forall (fun t => iso_shape t = true) ts.

Lemma StronglySorted_app_l {A : Type} (R : A -> A -> Prop) (l1 l2 : list A) :
  StronglySorted R (l1 ++ l2) -> StronglySorted R l1.
Proof.
  induction l1 as [|x l1 IH]; simpl; intros Hs; [constructor|].
  apply StronglySorted_inv in Hs as [Hs Hall].
  constructor; [now apply IH|]. now apply Forall_app in Hall.
Qed.

Lemma Forall_skipn {A : Type} (P : A -> Prop) (n : nat) (l : list A) :
  Forall P l -> Forall P (skipn n l).
Proof.
  intros H. rewrite <- (firstn_skipn n l) in H. now apply Forall_app in H.
Qed.

Section Rotation.
Variable YAML_stringify : JsValue -> string.

Lemma save_step (w : World) (text : string) (ts : list string)
  (prompts : JsObject JsValue) :
  healthy w ->
  dataDir (fs w) = true ->
  dataFile (fs w) = Some text ->
  obj_keys (backup_entries w) = map backupFileName ts ->
  StronglySorted str_lt (ts ++ [clock w (ticks w)]) ->
  all_iso (ts ++ [clock w (ticks w)]) ->
  exists w',
    save YAML_stringify prompts w = (Ok tt, w')
    /\ healthy w'
    /\ dataDir (fs w') = true
    /\ dataFile (fs w') = Some (YAML_stringify (VObject prompts))
    /\ clock w' = clock w
    /\ ticks w' = Datatypes.S (ticks w)
    /\ obj_keys (backup_entries w')
       = map backupFileName (lastn 10 (ts ++ [clock w (ticks w)])).
Proof.
  intros ((Hmk & Hread & Hwrite & Hcopy) & Hreaddir & Hunlink)
         Hdd Hfile Hkeys Hsorted Hiso.
  set (t := clock w (ticks w)) in *.
  set (copied := obj_set (backup_entries w) (backupFileName t) text).
  pose proof (backupFileName_sorted _ Hiso Hsorted) as Hnames.
  rewrite map_app in Hnames. simpl in Hnames.
  assert (Hfresh : obj_get (backup_entries w) (backupFileName t) = None).
  { apply obj_get_None_iff. rewrite Hkeys. intros Hin.
    pose proof (str_lt_NoDup _ Hnames) as Hnd.
    exact (NoDup_app_disjoint _ _ Hnd _ Hin (or_introl eq_refl)). }
  assert (Hcopied : obj_keys copied = map backupFileName (ts ++ [t])).
  { unfold copied. rewrite (obj_set_fresh _ _ _ Hfresh).
    unfold obj_keys in *. rewrite !map_app, Hkeys. reflexivity. }
  assert (Hcopied_sorted : StronglySorted str_lt (obj_keys copied)).
  { rewrite Hcopied, map_app. exact Hnames. }
  assert (Hcopied_names : Forall (fun k => is_backup_name k = true) (obj_keys copied)).
  { rewrite Hcopied. apply Forall_forall. intros k Hk.
    apply in_map_iff in Hk as (t' & <- & _).
    apply backupFileName_is_backup_name. }
  assert (Hclean : cleanupOldBackups (after_copy w text)
                   = (Ok tt, set_backups (after_copy w text) (prune copied))).
  { apply cleanupOldBackups_run; auto. now apply str_lt_NoDup. }
  exists (written (set_backups (after_copy w text) (prune copied))
            (YAML_stringify (VObject prompts))).
  split.
  - rewrite (save_run_existing YAML_stringify w text prompts Hdd Hfile
               (or_intror Hmk) Hcopy Hwrite).
    now rewrite Hclean.
  - split; [repeat split; assumption|].
    repeat split.
    unfold backup_entries at 1. simpl.
    rewrite (prune_oldest_first copied Hcopied_sorted Hcopied_names), Hcopied.
    apply lastn_map.
Qed.

Lemma save_all_rotation (docs : list (JsObject JsValue)) :
  forall (w : World) (text : string) (ts : list string),
    healthy w ->
    dataDir (fs w) = true ->
    dataFile (fs w) = Some text ->
    obj_keys (backup_entries w) = map backupFileName ts ->
    (List.length ts <= 10)%nat ->
    StronglySorted str_lt (ts ++ readings w (List.length docs)) ->
    all_iso (ts ++ readings w (List.length docs)) ->
    exists w',
      save_all YAML_stringify docs w = (Ok tt, w')
      /\ obj_keys (backup_entries w')
         = map backupFileName (lastn 10 (ts ++ readings w (List.length docs))).
Proof.
  induction docs as [|prompts docs IH];
    intros w text ts Hh Hdd Hfile Hkeys Hlen Hsorted Hiso.
  - exists w. split; [reflexivity|].
    unfold readings. simpl. rewrite app_nil_r.
    now rewrite lastn_short.
  - unfold readings in Hsorted, Hiso. simpl in Hsorted, Hiso.
    set (t := clock w (ticks w)) in *.
    set (rest := map (clock w) (seq (Datatypes.S (ticks w)) (List.length docs))) in *.
    change (ts ++ t :: rest) with (ts ++ [t] ++ rest) in Hsorted, Hiso.
    rewrite app_assoc in Hsorted, Hiso.
    destruct (save_step w text ts prompts Hh Hdd Hfile Hkeys
                (StronglySorted_app_l _ _ _ Hsorted)
                (proj1 (proj1 (Forall_app _ _ _) Hiso)))
      as (w1 & Hrun & Hh1 & Hdd1 & Hfile1 & Hclock & Hticks & Hkeys1).
    assert (Hrest : readings w1 (List.length docs) = rest).
    { unfold readings, rest. now rewrite Hclock, Hticks. }
    destruct (IH w1 _ (lastn 10 (ts ++ [t])) Hh1 Hdd1 Hfile1 Hkeys1) as (w' & Hrun' & Hkeys').
    + rewrite lastn_length. lia.
    + rewrite Hrest, lastn_app. now apply StronglySorted_skipn.
    + rewrite Hrest, lastn_app. now apply Forall_skipn.
    + exists w'. split.
      * simpl. unfold bind. now rewrite Hrun.
      * rewrite Hkeys', Hrest, lastn_app_lastn.
        unfold readings. simpl. fold t. fold rest.
        now rewrite <- app_assoc.
Qed.

End Rotation.

Lemma obj_set_keys_NoDup {V : Type} (o : JsObject V) (k : string) (v : V) :
  NoDup (obj_keys o) -> NoDup (obj_keys (obj_set o k v)).
Proof.
  intros Hnd. destruct (obj_get o k) as [v0|] eqn:E.
  - replace (obj_keys (obj_set o k v)) with (obj_keys o); [exact Hnd|].
    clear Hnd. revert E. induction o as [|[k1 v1] o IH]; simpl; [discriminate|].
    destruct (String.eqb_spec k k1) as [->|Hne]; simpl; [reflexivity|].
    intros E. now rewrite <- IH.
  - rewrite (obj_set_fresh _ _ _ E). unfold obj_keys in *. rewrite map_app. simpl.
    apply NoDup_app; [exact Hnd | repeat constructor; intros [] |].
    intros a Ha [<-|[]]. now apply obj_get_None_iff in E.
Qed.

(** C8.  [backup()] over an existing data file that can be copied.  The call
    completes, and so does the enclosing [save], whether pruning fails or
    not; a failed pruning leaves one warning on the console.  When pruning
    does not fail, at most 10 backup files remain, each later in file-name
    order than every backup file deleted, and no other file is touched.
    After 12 saves in a row over an existing data file, starting without
    backups and with clock readings that are ISO timestamps in strictly
    increasing order, exactly 10 backup files remain: those of the last 10
    saves. *)
Theorem backup_keeps_ten_latest (w : World) (text : string) :
  dataDir (fs w) = true ->
  dataFile (fs w) = Some text ->
  data_path_healthy w ->
  NoDup (obj_keys (backup_entries w)) ->
  let copied := obj_set (backup_entries w)
                  (backupFileName (clock w (ticks w))) text in
  fst (backup w) = Ok tt
  /\ (forall YAML_stringify prompts, fst (save YAML_stringify prompts w) = Ok tt)
  /\ (forall e w', pruning (after_copy w text) = (Throw e, w') ->
        console (snd (backup w)) = console w' ++ [prune_warning])
  /\ (readdir_fails (faults w) = false ->
      (forall f, unlink_fails (faults w) f = false) ->
      backup w = (Ok tt, set_backups (after_copy w text) (prune copied))
      /\ (List.length (backup_names (prune copied)) <= 10)%nat
      /\ List.length (backup_names (prune copied))
         = Nat.min 10 (List.length (backup_names copied))
      /\ (forall kept gone,
            In kept (backup_names (prune copied)) ->
            In gone (backup_names copied) ->
            ~ In gone (backup_names (prune copied)) ->
            str_lt gone kept)
      /\ (forall file, is_backup_name file = false ->
            obj_get (prune copied) file = obj_get copied file))
  /\ (readdir_fails (faults w) = false ->
      (forall f, unlink_fails (faults w) f = false) ->
      backup_entries w = [] ->
      forall YAML_stringify docs,
        List.length docs = 12%nat ->
        StronglySorted str_lt (readings w 12) ->
        all_iso (readings w 12) ->
        exists w',
          save_all YAML_stringify docs w = (Ok tt, w')
          /\ backup_names (backup_entries w')
             = map backupFileName (skipn 2 (readings w 12))
          /\ List.length (backup_names (backup_entries w')) = 10%nat).
Proof.
  intros Hdd Hfile Hdata Hnd copied.
  pose proof Hdata as (Hmk & Hread & Hwrite & Hcopy).
  pose proof (backup_run w text Hdd Hfile (or_intror Hmk) Hcopy) as Hrun.
  assert (Hndc : NoDup (obj_keys copied)) by now apply obj_set_keys_NoDup.
  split; [now rewrite Hrun|]. split; [|split; [|split]].
  - intros YAML_stringify prompts.
    now rewrite (save_run_existing YAML_stringify w text prompts Hdd Hfile
                   (or_intror Hmk) Hcopy Hwrite).
  - intros e w' Hthrow. rewrite Hrun. simpl.
    exact (cleanupOldBackups_warns _ _ _ Hthrow).
  - intros Hreaddir Hunlink.
    rewrite Hrun, (cleanupOldBackups_run (after_copy w text) copied);
      try reflexivity; auto.
    split; [reflexivity|].
    pose proof (prune_count copied Hndc) as Hcount.
    split; [rewrite Hcount; apply Nat.le_min_l|].
    split; [exact Hcount|].
    split; [intros kept gone; now apply prune_deletes_older|].
    intros file. apply prune_other_files.
  - intros Hreaddir Hunlink Hempty YAML_stringify docs Hlen Hsorted Hiso.
    destruct (save_all_rotation YAML_stringify docs w text []
                (conj Hdata (conj Hreaddir Hunlink)) Hdd Hfile)
      as (w' & Hall & Hkeys).
    + now rewrite Hempty.
    + simpl. lia.
    + rewrite Hlen. exact Hsorted.
    + rewrite Hlen. exact Hiso.
    + exists w'. split; [exact Hall|].
      rewrite Hlen in Hkeys.
      change ([] ++ readings w 12) with (readings w 12) in Hkeys.
      assert (Hten : lastn 10 (readings w 12) = skipn 2 (readings w 12)).
      { unfold lastn, readings. now rewrite length_map, length_seq. }
      rewrite Hten in Hkeys.
      assert (Hnames : backup_names (backup_entries w')
                       = map backupFileName (skipn 2 (readings w 12))).
      { unfold backup_names. rewrite Hkeys.
        apply forallb_filter_id, forallb_forall. intros k Hk.
        apply in_map_iff in Hk as (t' & <- & _).
        apply backupFileName_is_backup_name. }
      split; [exact Hnames|].
      rewrite Hnames, length_map, length_skipn. unfold readings.
      now rewrite length_map, length_seq.
Qed.


(** ** Concrete runs *)

Definition no_faults : Faults :=
  {| mkdir_fails := false; readFile_fails := false; writeFile_fails := false;
     copyFile_fails := false; readdir_fails := false;
     unlink_fails := fun _ => false |}.

Definition digit_char (d : nat) : ascii := ascii_of_nat (48 + d).

(** The timestamp of millisecond [n] of 1 January 2024, for [n < 1000]. *)
Definition stamp (n : nat) : string :=
  ("2024-01-01T00:00:00."
   ++ String (digit_char (n / 100))
        (String (digit_char ((n / 10) mod 10))
           (String (digit_char (n mod 10)) "Z")))%string.

(** A clock that advances one millisecond between calls, and one that is
    read twice within each millisecond. *)
Definition steady_clock (tick : nat) : string := stamp tick.
Definition fast_clock (tick : nat) : string := stamp (tick / 2).

(** A data directory holding [prompts.yaml] with [text] and no backups. *)
Definition disk (text : string) (clock : nat -> string) : World :=
  {| fs := {| dataDir := true; dataFile := Some text; backupDir := None |};
     faults := no_faults; clock := clock; ticks := 0; console := [] |}.

Definition sample_record : JsValue := prompt_value StoreSpec.sample_prompt.

Definition sample_mapping : JsObject JsValue :=
  prompts_value [("123"%string, StoreSpec.sample_prompt)].





Definition twelve_saves : list (JsObject JsValue) := repeat sample_mapping 12.

Lemma backup_keeps_ten_latest_witness :
  exists w',
    save_all Codec.stringify twelve_saves (disk "{}" steady_clock) = (Ok tt, w')
    /\ backup_names (backup_entries w')
       = map backupFileName (skipn 2 (readings (disk "{}" steady_clock) 12))
    /\ List.length (backup_names (backup_entries w')) = 10%nat.
Proof.
  pose proof (backup_keeps_ten_latest (disk "{}" steady_clock) "{}"
                eq_refl eq_refl) as Hspec.
  cbv zeta in Hspec.
  destruct Hspec as (_ & _ & _ & _ & Htwelve).
  - repeat split.
  - constructor.
  - apply (Htwelve eq_refl (fun _ => eq_refl) eq_refl Codec.stringify
             twelve_saves eq_refl).
    + repeat (constructor; [|repeat (constructor; try reflexivity)]).
      constructor.
    + repeat constructor.
Defined.

(** With the clock read twice per millisecond the 12 saves leave 6 backup
    files, not 10. *)
Lemma twelve_saves_within_six_milliseconds :
  fst (save_all Codec.stringify twelve_saves (disk "{}" fast_clock)) = Ok tt
  /\ List.length
       (backup_names
          (backup_entries
             (snd (save_all Codec.stringify twelve_saves (disk "{}" fast_clock)))))
     = 6%nat.
Proof. vm_compute. split; reflexivity. Qed.



End AdapterSpec.

(* ================================================================== *)
(** * The store's aggregates ([getCategories], [getTags], [getStats]) *)
(* ================================================================== *)

Module Aggregates.
Import Js Types PromptService.

(** An entry of [mostUsedPrompts]. *)
Record UsageEntry : Type := {
  entry_id : string;
  entry_title : string;
  entry_usage : Z
}.

Record Stats : Type := {
  totalPrompts : Z;
  totalCategories : Z;
  totalTags : Z;
  mostUsedPrompts : list UsageEntry
}.

(** The comparator of [getStats]. *)
Definition by_usage (a b : Prompt) : JsNumber :=
  Num (usage_or_0 b - usage_or_0 a).

Definition usage_entry (p : Prompt) : UsageEntry :=
  {| entry_id := id p; entry_title := title p; entry_usage := usage_or_0 p |}.

Section Operations.
Context {S : Type} {storage : StorageProvider S}.

Definition getCategories : M S (list string) :=
  bind ensureInitialized (fun _ =>
  bind this_prompts (fun ps =>
    let categories := unique (map category (obj_values ps)) in
    ret (sort_strings categories))).

Definition getTags : M S (list string) :=
  bind ensureInitialized (fun _ =>
  bind this_prompts (fun ps =>
    let allTags := flat_map tags (obj_values ps) in
    let uniqueTags := unique allTags in
    ret (sort_strings uniqueTags))).

Definition getStats : M S Stats :=
  bind ensureInitialized (fun _ =>
  bind this_prompts (fun ps =>
    let prompts := obj_values ps in
    bind getCategories (fun categories =>
    bind getTags (fun tags =>
      let sorted := sort by_usage prompts in
      let mostUsedPrompts := map usage_entry (slice sorted 0 5) in
      ret {| totalPrompts := Z.of_nat (List.length sorted);
             totalCategories := Z.of_nat (List.length categories);
             totalTags := Z.of_nat (List.length tags);
             mostUsedPrompts := mostUsedPrompts |})))).

End Operations.

End Aggregates.

(* ================================================================== *)
(** * More of the store's contract *)
(* ================================================================== *)

Module StoreExtras.
Import Js Types PromptService JsFacts StoreSpec Aggregates.

#[local] Ltac run H :=
  unfold getPrompt, createPrompt, updatePrompt, deletePrompt,
         listPrompts, searchPrompts, getCategories, getTags, getStats, bind;
  rewrite H; unfold this_prompts, set_prompts, storage_save, ret; simpl.

(** ** Objects: deleting a key *)

Lemma obj_get_delete_same {V : Type} (o : JsObject V) (k : string) :
  obj_get (obj_delete o k) k = None.
Proof.
  induction o as [|[k' v] o IH]; simpl; [reflexivity|].
  destruct (String.eqb_spec k k') as [->|Hne]; simpl; [exact IH|].
  destruct (String.eqb_spec k k'); [contradiction | exact IH].
Qed.


Lemma obj_delete_absent {V : Type} (o : JsObject V) (k : string) :
  ~ In k (obj_keys o) -> obj_delete o k = o.
Proof.
  intros Hk. unfold obj_delete. apply forallb_filter_id, forallb_forall.
  intros [k1 v1] Hin. simpl.
  destruct (String.eqb_spec k k1) as [->|]; [|reflexivity].
  exfalso. apply Hk. unfold obj_keys. apply in_map_iff.
  now exists (k1, v1).
Qed.


Lemma obj_delete_keys_NoDup {V : Type} (o : JsObject V) (k : string) :
  NoDup (obj_keys o) -> NoDup (obj_keys (obj_delete o k)).
Proof.
  intros Hnd. unfold obj_delete.
  rewrite (AdapterSpec.obj_keys_filter (fun k' => negb (String.eqb k k'))).
  now apply NoDup_filter.
Qed.

(** ** deletePrompt *)

Section Delete.
Context {S : Type} {storage : StorageProvider S}.

Lemma deletePrompt_present (w w0 : World S) (id : string) (p : Prompt)
  (r : Result unit) (s' : S) :
  ensureInitialized w = (Ok tt, w0) ->
  obj_get (prompts (fst w0)) id = Some p ->
  save (obj_delete (prompts (fst w0)) id) (snd w0) = (r, s') ->
  deletePrompt id w
  = (match r with Ok _ => Ok true | Throw e => Throw e end,
     ({| prompts := obj_delete (prompts (fst w0)) id; initialized := true |}, s')).
Proof.
  intros H Hp Hsave. run H. rewrite Hp. simpl. rewrite Hsave.
  rewrite (ensureInitialized_initialized w w0 H). now destruct r.
Qed.

End Delete.



(** ** Lazy hydration *)

(** An adapter whose every call is rejected. *)
Definition broken_adapter : StorageProvider unit :=
  {| load := fun s => (Throw {| message := "disk unavailable" |}, s);
     save := fun _ s => (Throw {| message := "disk unavailable" |}, s);
     backup := fun s => (Throw {| message := "disk unavailable" |}, s) |}.

(** X2.  The first operation on a new store loads the mapping from the
    adapter.  When that [load] throws, every operation throws the same error
    and the store stays as it was, not initialized, so the next operation
    loads again.  When it returns, the store holds exactly the loaded
    mapping.  Once initialized the store never calls [load] again: an
    operation that only reads answers from memory and leaves the adapter
    alone. *)
Theorem store_hydrates_on_first_use {S : Type} {storage : StorageProvider S}
  (w : World S) :
  initialized (fst w) = false ->
  (forall e s', load (snd w) = (Throw e, s') ->
      (forall id, getPrompt id w = (Throw e, (fst w, s')))
      /\ (forall uuid now request,
            createPrompt uuid now request w = (Throw e, (fst w, s')))
      /\ (forall now id request,
            updatePrompt now id request w = (Throw e, (fst w, s')))
      /\ (forall id, deletePrompt id w = (Throw e, (fst w, s')))
      /\ (forall filters, listPrompts filters w = (Throw e, (fst w, s')))
      /\ (forall query filters,
            searchPrompts query filters w = (Throw e, (fst w, s')))
      /\ getCategories w = (Throw e, (fst w, s'))
      /\ getTags w = (Throw e, (fst w, s'))
      /\ getStats w = (Throw e, (fst w, s')))
  /\ (forall ps s', load (snd w) = (Ok ps, s') ->
      ensureInitialized w
      = (Ok tt, ({| prompts := ps; initialized := true |}, s'))
      /\ forall filters,
           let w1 := ({| prompts := ps; initialized := true |}, s') in
           listPrompts filters w = listPrompts filters w1
           /\ snd (listPrompts filters w1) = w1).
Proof.
  intros Hi. split.
  - intros e s' Hload.
    assert (H : ensureInitialized w = (Throw e, (fst w, s'))).
    { unfold ensureInitialized, initialize, bind, storage_load.
      rewrite Hi. simpl. rewrite Hload. reflexivity. }
    repeat split; intros;
      unfold getPrompt, createPrompt, updatePrompt, deletePrompt, listPrompts,
        searchPrompts, getCategories, getTags, getStats, bind;
      now rewrite H.
  - intros ps s' Hload.
    assert (H : ensureInitialized w
                = (Ok tt, ({| prompts := ps; initialized := true |}, s'))).
    { unfold ensureInitialized, initialize, bind, storage_load.
      rewrite Hi. simpl. rewrite Hload. reflexivity. }
    split; [exact H|]. intros filters w1.
    assert (H1 : ensureInitialized w1 = (Ok tt, w1))
      by (apply ensureInitialized_idle; reflexivity).
    split.
    + run H. reflexivity.
    + run H1. reflexivity.
Qed.

Lemma store_hydrates_on_first_use_witness :
  @listPrompts unit broken_adapter no_filters (fresh, tt)
  = (Throw {| message := "disk unavailable" |}, (fresh, tt))
  /\ listPrompts no_filters (mock_world test_prompts)
     = listPrompts no_filters (hydrated_world test_prompts).
Proof.
  destruct (@store_hydrates_on_first_use _ broken_adapter (fresh, tt) eq_refl)
    as [Hthrow _].
  destruct (@store_hydrates_on_first_use _ MockStorageProvider
              (mock_world test_prompts) eq_refl) as [_ Hload].
  destruct (Hthrow _ tt eq_refl) as (_ & _ & _ & _ & Hlist & _).
  destruct (Hload test_prompts test_prompts eq_refl) as [_ Hlist'].
  split; [exact (Hlist no_filters) | exact (proj1 (Hlist' no_filters))].
Defined.

(** ** getCategories, getTags, getStats *)

Lemma strictly_sorted (xs : list string) :
  StronglySorted str_le xs -> NoDup xs -> StronglySorted str_lt xs.
Proof.
  induction 1 as [|x xs Hs IH Hall]; intros Hnd; constructor.
  - apply IH. now inversion Hnd.
  - apply NoDup_cons_iff in Hnd as [Hx _].
    rewrite Forall_forall in *. intros y Hy.
    specialize (Hall y Hy). unfold str_le in Hall. unfold str_lt.
    destruct (String.compare x y) eqn:E; [|reflexivity|congruence].
    apply String.compare_eq_iff in E. subst y. contradiction.
Qed.

Lemma sorted_unique_strict (xs : list string) :
  StronglySorted str_lt (sort_strings (unique xs)).
Proof.
  apply strictly_sorted; [apply sort_strings_sorted|].
  apply (Permutation_NoDup (l := unique xs));
    [symmetry; apply sort_strings_perm|].
  rewrite unique_dedup_first. apply dedup_first_NoDup.
Qed.

Lemma sorted_unique_In (xs : list string) (x : string) :
  In x (sort_strings (unique xs)) <-> In x xs.
Proof.
  transitivity (In x (unique xs)).
  - split; apply Permutation_in;
      [apply sort_strings_perm | symmetry; apply sort_strings_perm].
  - rewrite unique_dedup_first. apply dedup_first_In.
Qed.

Lemma sorted_unique_count (xs ys : list string) :
  NoDup ys -> (forall x, In x ys <-> In x xs) ->
  List.length (sort_strings (unique xs)) = List.length ys.
Proof.
  intros Hnd Hin. apply Permutation_length, NoDup_Permutation.
  - apply (Permutation_NoDup (l := unique xs));
      [symmetry; apply sort_strings_perm|].
    rewrite unique_dedup_first. apply dedup_first_NoDup.
  - exact Hnd.
  - intros x. now rewrite sorted_unique_In, Hin.
Qed.

(** Usage counts, highest first. *)
Definition usage_desc (a b : Prompt) : Prop := usage_or_0 b <= usage_or_0 a.

Lemma sort_by_usage_sorted (ps : list Prompt) :
  StronglySorted usage_desc (sort by_usage ps).
Proof.
  apply Sorted_StronglySorted; [intros a b c; unfold usage_desc; lia|].
  apply Sorted_weaken with (R := before by_usage).
  - intros a b _ _. unfold before, SortCompare, by_usage, usage_desc. lia.
  - apply sort_sorted. intros a b. unfold before, SortCompare, by_usage. lia.
Qed.

Section AggregateRuns.
Context {S : Type} {storage : StorageProvider S}.

Lemma getCategories_run (w w0 : World S) :
  ensureInitialized w = (Ok tt, w0) ->
  getCategories w
  = (Ok (sort_strings (unique (map category (obj_values (prompts (fst w0)))))),
     w0).
Proof. intros H. run H. reflexivity. Qed.

Lemma getTags_run (w w0 : World S) :
  ensureInitialized w = (Ok tt, w0) ->
  getTags w
  = (Ok (sort_strings (unique (flat_map tags (obj_values (prompts (fst w0)))))),
     w0).
Proof. intros H. run H. reflexivity. Qed.

Lemma getStats_run (w w0 : World S) :
  ensureInitialized w = (Ok tt, w0) ->
  let ps := obj_values (prompts (fst w0)) in
  getStats w
  = (Ok {| totalPrompts := Z.of_nat (List.length (sort by_usage ps));
           totalCategories :=
             Z.of_nat (List.length (sort_strings (unique (map category ps))));
           totalTags :=
             Z.of_nat (List.length (sort_strings (unique (flat_map tags ps))));
           mostUsedPrompts := map usage_entry (slice (sort by_usage ps) 0 5) |},
     w0).
Proof.
  intros H ps.
  assert (H0 : ensureInitialized w0 = (Ok tt, w0))
    by (apply ensureInitialized_idle, (ensureInitialized_initialized w w0 H)).
  unfold getStats, bind at 1. rewrite H.
  unfold bind at 1, this_prompts at 1. unfold bind at 1.
  rewrite (getCategories_run w0 w0 H0). unfold bind.
  rewrite (getTags_run w0 w0 H0). reflexivity.
Qed.

End AggregateRuns.

(** X3.  [getCategories()], once the store is hydrated, answers the
    categories of the stored prompts in strictly ascending order: each
    category that some prompt carries is listed, exactly once, and nothing
    else is; neither the store nor the adapter changes. *)
Theorem getCategories_lists_each_category_once
  {S : Type} {storage : StorageProvider S} (w w0 : World S) :
  ensureInitialized w = (Ok tt, w0) ->
  exists cs,
    getCategories w = (Ok cs, w0)
    /\ StronglySorted str_lt cs
    /\ NoDup cs
    /\ forall c, In c cs
                 <-> exists p, In p (obj_values (prompts (fst w0)))
                               /\ category p = c.
Proof.
  intros H. eexists. split; [apply (getCategories_run w w0 H)|].
  split; [apply sorted_unique_strict|]. split.
  - apply (Permutation_NoDup (l := unique (map category
                                      (obj_values (prompts (fst w0))))));
      [symmetry; apply sort_strings_perm|].
    rewrite unique_dedup_first. apply dedup_first_NoDup.
  - intros c. rewrite sorted_unique_In, in_map_iff.
    split; intros (p & Hp1 & Hp2); exists p; tauto.
Qed.

Lemma getCategories_lists_each_category_once_witness :
  getCategories (mock_world test_prompts)
  = (Ok ["coding"; "creative"]%string, hydrated_world test_prompts)
  /\ StronglySorted str_lt ["coding"; "creative"]%string.
Proof.
  destruct (@getCategories_lists_each_category_once _ MockStorageProvider
              (mock_world test_prompts) (hydrated_world test_prompts) eq_refl)
    as (cs & Hrun & Hsorted & _).
  assert (Hc : getCategories (mock_world test_prompts)
               = (Ok ["coding"; "creative"]%string,
                  hydrated_world test_prompts)) by reflexivity.
  rewrite Hc in Hrun. injection Hrun as <-.
  split; [exact Hc | exact Hsorted].
Defined.

(** X4.  [getTags()], once the store is hydrated, answers the tags of the
    stored prompts in strictly ascending order: each tag that some prompt
    carries is listed, exactly once, and nothing else is; neither the store
    nor the adapter changes. *)
Theorem getTags_lists_each_tag_once
  {S : Type} {storage : StorageProvider S} (w w0 : World S) :
  ensureInitialized w = (Ok tt, w0) ->
  exists ts,
    getTags w = (Ok ts, w0)
    /\ StronglySorted str_lt ts
    /\ NoDup ts
    /\ forall t, In t ts
                 <-> exists p, In p (obj_values (prompts (fst w0)))
                               /\ In t (tags p).
Proof.
  intros H. eexists. split; [apply (getTags_run w w0 H)|].
  split; [apply sorted_unique_strict|]. split.
  - apply (Permutation_NoDup (l := unique (flat_map tags
                                      (obj_values (prompts (fst w0))))));
      [symmetry; apply sort_strings_perm|].
    rewrite unique_dedup_first. apply dedup_first_NoDup.
  - intros c. rewrite sorted_unique_In, in_flat_map. reflexivity.
Qed.

Lemma getTags_lists_each_tag_once_witness :
  getTags (mock_world test_prompts)
  = (Ok ["creative"; "javascript"; "programming"; "python"; "writing"]%string,
     hydrated_world test_prompts)
  /\ NoDup ["creative"; "javascript"; "programming"; "python"; "writing"]%string.
Proof.
  destruct (@getTags_lists_each_tag_once _ MockStorageProvider
              (mock_world test_prompts) (hydrated_world test_prompts) eq_refl)
    as (ts & Hrun & _ & Hnd & _).
  assert (Hc : getTags (mock_world test_prompts)
               = (Ok ["creative"; "javascript"; "programming"; "python";
                      "writing"]%string,
                  hydrated_world test_prompts)) by reflexivity.
  rewrite Hc in Hrun. injection Hrun as <-.
  split; [exact Hc | exact Hnd].
Defined.

(** X5.  [getStats()], once the store is hydrated, changes nothing and
    answers: the number of stored prompts; the number of distinct categories
    and of distinct tags (the length of any duplicate-free list of them);
    and as [mostUsedPrompts] the id, title and usage (absent read as 0) of
    the first five prompts of the stored ones arranged by usage, highest
    first -- all of them when fewer than five are stored. *)
Theorem getStats_counts_and_ranks
  {S : Type} {storage : StorageProvider S} (w w0 : World S) :
  ensureInitialized w = (Ok tt, w0) ->
  let ps := obj_values (prompts (fst w0)) in
  exists stats ranked,
    getStats w = (Ok stats, w0)
    /\ totalPrompts stats = Z.of_nat (List.length (prompts (fst w0)))
    /\ (forall cs, NoDup cs ->
          (forall c, In c cs <-> exists p, In p ps /\ category p = c) ->
          totalCategories stats = Z.of_nat (List.length cs))
    /\ (forall ts, NoDup ts ->
          (forall t, In t ts <-> exists p, In p ps /\ In t (tags p)) ->
          totalTags stats = Z.of_nat (List.length ts))
    /\ Permutation ranked ps
    /\ StronglySorted usage_desc ranked
    /\ mostUsedPrompts stats = map usage_entry (firstn 5 ranked)
    /\ List.length (mostUsedPrompts stats) = Nat.min 5 (List.length ps).
Proof.
  intros H ps. eexists. exists (sort by_usage ps).
  split; [apply (getStats_run w w0 H)|]. cbv beta. simpl.
  fold ps.
  split; [now rewrite sort_length; unfold ps, obj_values; rewrite length_map|].
  split.
  { intros cs Hnd Hin. f_equal. apply sorted_unique_count; [exact Hnd|].
    intros c. rewrite Hin, in_map_iff.
    split; intros (p & Hp1 & Hp2); exists p; tauto. }
  split.
  { intros ts Hnd Hin. f_equal. apply sorted_unique_count; [exact Hnd|].
    intros c. rewrite Hin, in_flat_map. reflexivity. }
  split; [apply sort_perm|].
  split; [apply sort_by_usage_sorted|].
  assert (Hslice : slice (sort by_usage ps) 0 5 = firstn 5 (sort by_usage ps)).
  { change 5 with (0 + 5) at 1. rewrite slice_window by lia. reflexivity. }
  rewrite Hslice. split; [reflexivity|].
  now rewrite length_map, length_firstn, sort_length.
Qed.

Lemma getStats_counts_and_ranks_witness :
  getStats (mock_world test_prompts)
  = (Ok {| totalPrompts := 3; totalCategories := 2; totalTags := 5;
           mostUsedPrompts :=
             [ {| entry_id := "3"; entry_title := "Writing Prompt";
                  entry_usage := 15 |};
               {| entry_id := "1"; entry_title := "JavaScript Prompt";
                  entry_usage := 10 |};
               {| entry_id := "2"; entry_title := "Python Prompt";
                  entry_usage := 5 |} ] |},
     hydrated_world test_prompts)
  /\ exists ranked,
       Permutation ranked (obj_values test_prompts)
       /\ StronglySorted usage_desc ranked.
Proof.
  destruct (@getStats_counts_and_ranks _ MockStorageProvider
              (mock_world test_prompts) (hydrated_world test_prompts) eq_refl)
    as (stats & ranked & Hrun & _ & _ & _ & Hperm & Hsorted & _).
  split; [reflexivity|].
  exists ranked. split; [exact Hperm | exact Hsorted].
Defined.

(** ** A failing save *)

(** An adapter that loads but rejects every save. *)
Definition read_only_adapter : StorageProvider (JsObject Prompt) :=
  {| load := fun data => (Ok data, data);
     save := fun _ data => (Throw {| message := "disk full" |}, data);
     backup := fun data => (Ok tt, data) |}.

Section SaveFails.
Context {S : Type} {storage : StorageProvider S}.

Lemma createPrompt_run (w w0 : World S) (uuid now : string)
  (request : CreatePromptRequest) (r : Result unit) (s' : S) :
  ensureInitialized w = (Ok tt, w0) ->
  let p := new_prompt uuid now request in
  let ps' := obj_set (prompts (fst w0)) uuid p in
  save ps' (snd w0) = (r, s') ->
  createPrompt uuid now request w
  = (match r with Ok _ => Ok p | Throw e => Throw e end,
     ({| prompts := ps'; initialized := true |}, s')).
Proof.
  intros H p ps' Hsave. run H. fold p. fold ps'. rewrite Hsave.
  rewrite (ensureInitialized_initialized w w0 H). now destruct r.
Qed.

Lemma listPrompts_run (w w0 : World S) (filters : SearchFilters) :
  ensureInitialized w = (Ok tt, w0) ->
  listPrompts filters w
  = (Ok (paginate filters
           (sort by_usage_then_updated
              (filter (listed filters) (obj_values (prompts (fst w0)))))), w0).
Proof. intros H. run H. now rewrite list_filters_eq. Qed.

Lemma searchPrompts_run (w w0 : World S) (query : string)
  (filters : SearchFilters) :
  ensureInitialized w = (Ok tt, w0) ->
  searchPrompts query filters w
  = (Ok (paginate filters
           (sort (by_score_then_usage query)
              (filter (found query filters) (obj_values (prompts (fst w0)))))),
     w0).
Proof. intros H. run H. now rewrite search_filters_eq. Qed.

End SaveFails.

(** X6.  No operation rolls back.  When the adapter's [save] throws,
    [createPrompt], [getPrompt] and [updatePrompt] throw the same error, and
    the store's memory already holds the change: the new record, the raised
    usage count, the updated record.  A listing made afterwards reads that
    memory, so it shows what the adapter never stored. *)
Theorem failed_save_keeps_change_in_memory
  {S : Type} {storage : StorageProvider S}
  (w w0 : World S) (e : Error) (s' : S) :
  ensureInitialized w = (Ok tt, w0) ->
  let ps := prompts (fst w0) in
  let after ps' : World S := ({| prompts := ps'; initialized := true |}, s') in
  (forall uuid now request,
      let ps' := obj_set ps uuid (new_prompt uuid now request) in
      save ps' (snd w0) = (Throw e, s') ->
      createPrompt uuid now request w = (Throw e, after ps')
      /\ obj_get ps' uuid = Some (new_prompt uuid now request)
      /\ forall filters,
           listPrompts filters (after ps')
           = (Ok (paginate filters
                    (sort by_usage_then_updated
                       (filter (listed filters) (obj_values ps')))), after ps'))
  /\ (forall id p,
        obj_get ps id = Some p ->
        let ps' := obj_set ps id (set_usage p (usage_or_0 p + 1)) in
        save ps' (snd w0) = (Throw e, s') ->
        getPrompt id w = (Throw e, after ps')
        /\ obj_get ps' id = Some (set_usage p (usage_or_0 p + 1)))
  /\ (forall now id request p,
        obj_get ps id = Some p ->
        let ps' := obj_set ps id (updated_prompt now p request) in
        save ps' (snd w0) = (Throw e, s') ->
        updatePrompt now id request w = (Throw e, after ps')
        /\ obj_get ps' id = Some (updated_prompt now p request)).
Proof.
  intros H ps after. pose proof (ensureInitialized_initialized w w0 H) as Hi.
  split; [|split].
  - intros uuid now request ps' Hsave.
    split; [exact (createPrompt_run w w0 uuid now request (Throw e) s' H Hsave)|].
    split; [apply obj_get_set_same|].
    intros filters. apply (listPrompts_run (after ps') (after ps')).
    now apply ensureInitialized_idle.
  - intros id p Hp ps' Hsave.
    rewrite (getPrompt_present w w0 id p (Throw e) s' H Hp Hsave), Hi.
    split; [reflexivity | apply obj_get_set_same].
  - intros now id request p Hp ps' Hsave.
    rewrite (updatePrompt_present w w0 now id request p (Throw e) s' H Hp Hsave).
    split; [reflexivity | apply obj_get_set_same].
Qed.

(** A create on a disk that is full: the call throws, the adapter still
    holds one record, the store's memory two. *)
Definition one_on_disk : JsObject Prompt := [("123"%string, sample_prompt)].

Definition two_in_memory : World (JsObject Prompt) :=
  ({| prompts :=
        [("123"%string, sample_prompt);
         (sample_uuid,
          new_prompt sample_uuid "2023-01-01T00:00:00.000Z" sample_request)];
      initialized := true |},
   one_on_disk).

Lemma failed_save_keeps_change_in_memory_witness :
  @createPrompt _ read_only_adapter sample_uuid "2023-01-01T00:00:00.000Z"
    sample_request (fresh, one_on_disk)
  = (Throw {| message := "disk full" |}, two_in_memory)
  /\ option_map (@total Prompt)
       (match fst (@listPrompts _ read_only_adapter no_filters two_in_memory) with
        | Ok page => Some page
        | Throw _ => None
        end) = Some 2.
Proof.
  destruct (@failed_save_keeps_change_in_memory _ read_only_adapter
              (fresh, one_on_disk)
              ({| prompts := one_on_disk; initialized := true |}, one_on_disk)
              {| message := "disk full" |} one_on_disk eq_refl)
    as [Hcreate _].
  destruct (Hcreate sample_uuid "2023-01-01T00:00:00.000Z" sample_request
              eq_refl) as (Hthrow & _ & Hlist).
  split; [exact Hthrow|].
  exact (f_equal
           (fun r : Result (PaginatedResponse Prompt) * World (JsObject Prompt) =>
              option_map (@total Prompt)
                (match fst r with Ok page => Some page | Throw _ => None end))
           (Hlist no_filters)).
Defined.

(** ** Versions over a run of updates *)





(** ** Create, read, delete *)

Lemma obj_delete_set_fresh {V : Type} (o : JsObject V) (k : string) (v : V) :
  obj_get o k = None -> obj_delete (obj_set o k v) k = o.
Proof.
  intros Hk. rewrite (obj_set_fresh o k v Hk). unfold obj_delete.
  rewrite filter_app. simpl. rewrite String.eqb_refl. simpl.
  rewrite app_nil_r. apply (obj_delete_absent o k).
  now apply AdapterSpec.obj_get_None_iff.
Qed.

Lemma obj_set_set {V : Type} (o : JsObject V) (k : string) (v v' : V) :
  obj_set (obj_set o k v) k v' = obj_set o k v'.
Proof.
  induction o as [|[k1 v1] o IH]; simpl.
  - now rewrite String.eqb_refl.
  - destruct (String.eqb k k1) eqn:E; simpl.
    + now rewrite String.eqb_refl.
    + now rewrite E, IH.
Qed.

(** An adapter whose [save] always completes. *)
Definition always_saves {S : Type} (storage : StorageProvider S) : Prop :=
  forall ps s, exists s', save ps s = (Ok tt, s').

(** X8.  Over an adapter whose saves complete, with [uuid] new to the store:
    [createPrompt] answers the new record; a [getPrompt] of its id answers
    that record with usage 1 (created with 0, the read counted); a
    [deletePrompt] of the id answers [true] and leaves the mapping exactly
    as it was before the create; a second [deletePrompt] answers [false] and
    a [getPrompt] answers [null]. *)
Theorem create_get_delete_round_trip
  {S : Type} {storage : StorageProvider S}
  (w w0 : World S) (uuid now : string) (request : CreatePromptRequest) :
  ensureInitialized w = (Ok tt, w0) ->
  always_saves storage ->
  obj_get (prompts (fst w0)) uuid = None ->
  let p := new_prompt uuid now request in
  exists w1 w2 w3,
    createPrompt uuid now request w = (Ok p, w1)
    /\ getPrompt uuid w1 = (Ok (Some (set_usage p 1)), w2)
    /\ deletePrompt uuid w2 = (Ok true, w3)
    /\ prompts (fst w3) = prompts (fst w0)
    /\ deletePrompt uuid w3 = (Ok false, w3)
    /\ getPrompt uuid w3 = (Ok None, w3).
Proof.
  intros H Hsaves Hfresh p.
  set (ps := prompts (fst w0)).
  destruct (Hsaves (obj_set ps uuid p) (snd w0)) as [s1 Hs1].
  destruct (Hsaves (obj_set (obj_set ps uuid p) uuid (set_usage p 1)) s1)
    as [s2 Hs2].
  destruct (Hsaves (obj_delete (obj_set (obj_set ps uuid p) uuid (set_usage p 1))
                      uuid) s2) as [s3 Hs3].
  set (w1 := ({| prompts := obj_set ps uuid p; initialized := true |}, s1)
             : World S).
  set (w2 := ({| prompts := obj_set (obj_set ps uuid p) uuid (set_usage p 1);
                 initialized := true |}, s2) : World S).
  set (w3 := ({| prompts := obj_delete (obj_set (obj_set ps uuid p) uuid
                                          (set_usage p 1)) uuid;
                 initialized := true |}, s3) : World S).
  exists w1, w2, w3.
  assert (Hback : obj_delete (obj_set (obj_set ps uuid p) uuid (set_usage p 1))
                    uuid = ps)
    by (rewrite obj_set_set; now apply obj_delete_set_fresh).
  split; [exact (createPrompt_run w w0 uuid now request (Ok tt) s1 H Hs1)|].
  split.
  { rewrite (getPrompt_present w1 w1 uuid p (Ok tt) s2
               (ensureInitialized_idle w1 eq_refl)
               (obj_get_set_same ps uuid p) Hs2).
    reflexivity. }
  split.
  { rewrite (deletePrompt_present w2 w2 uuid (set_usage p 1) (Ok tt) s3
               (ensureInitialized_idle w2 eq_refl)
               (obj_get_set_same _ uuid (set_usage p 1)) Hs3).
    reflexivity. }
  split; [exact Hback|].
  split.
  - run (ensureInitialized_idle w3 eq_refl).
    now rewrite obj_get_delete_same.
  - apply getPrompt_absent; [now apply ensureInitialized_idle|].
    simpl. apply obj_get_delete_same.
Qed.

Lemma create_get_delete_round_trip_witness :
  exists w1 w2 w3,
    createPrompt sample_uuid "2023-01-01T00:00:00.000Z" sample_request
      (mock_world test_prompts)
    = (Ok (new_prompt sample_uuid "2023-01-01T00:00:00.000Z" sample_request), w1)
    /\ getPrompt sample_uuid w1
       = (Ok (Some (set_usage (new_prompt sample_uuid "2023-01-01T00:00:00.000Z"
                                 sample_request) 1)), w2)
    /\ deletePrompt sample_uuid w2 = (Ok true, w3)
    /\ prompts (fst w3) = test_prompts.
Proof.
  destruct (@create_get_delete_round_trip _ MockStorageProvider
              (mock_world test_prompts) (hydrated_world test_prompts)
              sample_uuid "2023-01-01T00:00:00.000Z" sample_request
              eq_refl (fun ps _ => ex_intro _ ps eq_refl) eq_refl)
    as (w1 & w2 & w3 & H1 & H2 & H3 & H4 & _).
  exists w1, w2, w3. repeat split; assumption.
Defined.

(** ** Pages *)

Definition with_page (filters : SearchFilters) (offset limit : Z) : SearchFilters :=
  {| f_tags := f_tags filters; f_category := f_category filters;
     f_title := f_title filters;
     f_limit := Some limit; f_offset := Some offset |}.

(** The pages of [size] records at offsets 0, [size], 2 [size], ..., one
    after the other. *)
Definition pages (size : Z) (count : nat) (page : SearchFilters -> list Prompt)
  (filters : SearchFilters) : list Prompt :=
  concat (map (fun k => page (with_page filters (Z.of_nat k * size) size))
              (seq 0 count)).

Lemma firstn_skipn_tile {A : Type} (xs : list A) (o l l' : nat) :
  firstn l (skipn o xs) ++ firstn l' (skipn (o + l) xs)
  = firstn (l + l') (skipn o xs).
Proof.
  rewrite Nat.add_comm, <- skipn_skipn.
  generalize (skipn o xs) as ys. clear xs o.
  induction l as [|l IH]; intros ys; simpl; [reflexivity|].
  destruct ys as [|y ys]; simpl.
  - now rewrite firstn_nil.
  - now rewrite IH.
Qed.

Lemma paginate_items (filters : SearchFilters) (offset limit : Z)
  (ps : list Prompt) :
  0 <= offset -> 0 < limit ->
  items (paginate (with_page filters offset limit) ps)
  = firstn (Z.to_nat limit) (skipn (Z.to_nat offset) ps).
Proof.
  intros Ho Hl. unfold paginate, limit_of, offset_of. simpl.
  destruct (Z.eqb_spec limit 0); [lia|].
  apply slice_window; lia.
Qed.

Lemma pages_tile (size : Z) (count : nat) (filters : SearchFilters)
  (ps : list Prompt) :
  0 < size ->
  pages size count (fun f => items (paginate f ps)) filters
  = firstn (count * Z.to_nat size) ps.
Proof.
  intros Hs. unfold pages.
  induction count as [|n IH]; [reflexivity|].
  rewrite seq_S, map_app, concat_app, IH. cbn [map concat Nat.add].
  rewrite app_nil_r, paginate_items by lia.
  replace (Z.to_nat (Z.of_nat n * size)) with (n * Z.to_nat size)%nat by lia.
  replace (Datatypes.S n * Z.to_nat size)%nat
    with (n * Z.to_nat size + Z.to_nat size)%nat by lia.
  exact (firstn_skipn_tile ps 0 (n * Z.to_nat size) (Z.to_nat size)).
Qed.

Lemma listed_with_page (filters : SearchFilters) (offset limit : Z) :
  listed (with_page filters offset limit) = listed filters.
Proof. reflexivity. Qed.

Lemma found_with_page (query : string) (filters : SearchFilters)
  (offset limit : Z) :
  found query (with_page filters offset limit) = found query filters.
Proof. reflexivity. Qed.

(** The items of an answer; none when the call threw. *)
Definition items_of {W : Type} (r : Result (PaginatedResponse Prompt) * W)
  : list Prompt :=
  match fst r with
  | Ok page => items page
  | Throw _ => []
  end.

Definition total_of {W : Type} (r : Result (PaginatedResponse Prompt) * W) : Z :=
  match fst r with
  | Ok page => total page
  | Throw _ => 0
  end.

(** X9.  Paging loses and repeats nothing.  On a hydrated store, with a
    page size above 0: the page at [offset] and the page after it, put
    together, are the double-size page at [offset]; every page reports the
    same [total] and holds at most [size] records; and the first [count]
    pages of [listPrompts], one after the other, are the whole filtered and
    sorted list as soon as [count * size] reaches [total].  The same holds
    for [searchPrompts]. *)
Theorem pages_cover_the_listing
  {S : Type} {storage : StorageProvider S}
  (w : World S) (filters : SearchFilters) (query : string) (size : Z) :
  initialized (fst w) = true ->
  0 < size ->
  let all := obj_values (prompts (fst w)) in
  let listing := sort by_usage_then_updated (filter (listed filters) all) in
  let hits := sort (by_score_then_usage query) (filter (found query filters) all) in
  let list_page f := items_of (listPrompts f w) in
  let search_page f := items_of (searchPrompts query f w) in
  (forall offset, 0 <= offset ->
      list_page (with_page filters offset size)
      ++ list_page (with_page filters (offset + size) size)
      = list_page (with_page filters offset (size + size))
      /\ (List.length (list_page (with_page filters offset size))
          <= Z.to_nat size)%nat
      /\ total_of (listPrompts (with_page filters offset size) w)
         = Z.of_nat (List.length listing))
  /\ (forall count, Z.of_nat (List.length listing) <= Z.of_nat count * size ->
        pages size count list_page filters = listing)
  /\ (forall offset, 0 <= offset ->
        search_page (with_page filters offset size)
        ++ search_page (with_page filters (offset + size) size)
        = search_page (with_page filters offset (size + size))
        /\ total_of (searchPrompts query (with_page filters offset size) w)
           = Z.of_nat (List.length hits))
  /\ (forall count, Z.of_nat (List.length hits) <= Z.of_nat count * size ->
        pages size count search_page filters = hits).
Proof.
  intros Hi Hs all listing hits list_page search_page.
  pose proof (ensureInitialized_idle w Hi) as H.
  assert (Hlist : forall f, list_page f
                            = items (paginate f (sort by_usage_then_updated
                                                   (filter (listed f) all)))).
  { intros f. unfold list_page, items_of.
    now rewrite (listPrompts_run w w f H). }
  assert (Hsearch : forall f, search_page f
                              = items (paginate f (sort (by_score_then_usage query)
                                                     (filter (found query f) all)))).
  { intros f. unfold search_page, items_of.
    now rewrite (searchPrompts_run w w query f H). }
  split; [|split; [|split]].
  - intros offset Ho. rewrite !Hlist, !listed_with_page. fold listing.
    rewrite !paginate_items by lia.
    split; [|split].
    + replace (Z.to_nat (offset + size))
        with (Z.to_nat offset + Z.to_nat size)%nat by lia.
      rewrite firstn_skipn_tile. f_equal. lia.
    + rewrite length_firstn. lia.
    + unfold total_of. rewrite (listPrompts_run w w _ H).
      rewrite listed_with_page. reflexivity.
  - intros count Hcount. unfold pages.
    rewrite (map_ext _ (fun k => items (paginate
                          (with_page filters (Z.of_nat k * size) size) listing))).
    + fold (pages size count (fun f => items (paginate f listing)) filters).
      rewrite pages_tile by lia. apply firstn_all2. nia.
    + intros k. now rewrite Hlist, listed_with_page.
  - intros offset Ho. rewrite !Hsearch, !found_with_page. fold hits.
    rewrite !paginate_items by lia.
    split.
    + replace (Z.to_nat (offset + size))
        with (Z.to_nat offset + Z.to_nat size)%nat by lia.
      rewrite firstn_skipn_tile. f_equal. lia.
    + unfold total_of. rewrite (searchPrompts_run w w query _ H).
      rewrite found_with_page. reflexivity.
  - intros count Hcount. unfold pages.
    rewrite (map_ext _ (fun k => items (paginate
                          (with_page filters (Z.of_nat k * size) size) hits))).
    + fold (pages size count (fun f => items (paginate f hits)) filters).
      rewrite pages_tile by lia. apply firstn_all2. nia.
    + intros k. now rewrite Hsearch, found_with_page.
Qed.

(** The three prompts of the unit tests in two pages of two. *)
Lemma pages_cover_the_listing_witness :
  pages 2 2 (fun f => items_of (listPrompts f (hydrated_world test_prompts)))
    no_filters
  = [writing_prompt; js_prompt; python_prompt].
Proof.
  destruct (@pages_cover_the_listing _ MockStorageProvider
              (hydrated_world test_prompts) no_filters "" 2 eq_refl eq_refl)
    as (_ & Hpages & _).
  rewrite (Hpages 2%nat); [reflexivity | vm_compute; discriminate].
Defined.

(** ** incrementVersion on versions that are not [major.minor.patch] *)





Lemma digit_of_char_is_digit (c : ascii) :
  digit_of_char c = None -> is_digit c = false.
Proof.
  destruct c as [[|] [|] [|] [|] [|] [|] [|] [|]]; cbv; intros;
    first [reflexivity | discriminate].
Qed.



End StoreExtras.

(* ================================================================== *)
(** * More of the file adapter's contract *)
(* ================================================================== *)

Module AdapterExtras.
Import Js Types FileStorage JsFacts AdapterSpec.

Definition save_failure (e : Error) : Error :=
  {| message := "Failed to save prompts: " ++ message e |}.

Definition backup_failure (e : Error) : Error :=
  {| message := "Failed to create backup: " ++ message e |}.

(** A data directory without [prompts.yaml]. *)
Definition empty_disk (clock : nat -> string) : World :=
  {| fs := {| dataDir := true; dataFile := None; backupDir := None |};
     faults := no_faults; clock := clock; ticks := 0; console := [] |}.

Definition with_faults (w : World) (fl : Faults) : World :=
  {| fs := fs w; faults := fl; clock := clock w; ticks := ticks w;
     console := console w |}.

Definition write_protected : Faults :=
  {| mkdir_fails := false; readFile_fails := false; writeFile_fails := true;
     copyFile_fails := false; readdir_fails := false;
     unlink_fails := fun _ => false |}.

Definition copy_protected : Faults :=
  {| mkdir_fails := false; readFile_fails := false; writeFile_fails := false;
     copyFile_fails := true; readdir_fails := false;
     unlink_fails := fun _ => false |}.

(** ** load without a data file *)

(** X11.  [load()] when [prompts.yaml] does not exist.  If the directory is
    there or can be made and the file can be written, [load()] writes the
    empty document, answers the empty mapping, makes no backup and logs
    nothing; a second [load()] reads that document and answers the empty
    mapping again.  If the file cannot be written, [load()] throws the
    save's error wrapped a second time, both errors are logged, and no file
    appears.  If the directory cannot be made, [load()] throws that error,
    wrapped once. *)
Theorem load_creates_missing_file
  (YAML_parse : string -> Result JsValue) (YAML_stringify : JsValue -> string)
  (w : World) :
  dataFile (fs w) = None ->
  let empty := YAML_stringify (VObject []) in
  let load := load YAML_parse YAML_stringify in
  (dataDir (fs w) = true \/ mkdir_fails (faults w) = false ->
   writeFile_fails (faults w) = false ->
   load w = (Ok [], written w empty)
   /\ (readFile_fails (faults w) = false ->
       YAML_parse empty = Ok (VObject []) ->
       load (written w empty) = (Ok [], written w empty)))
  /\ (dataDir (fs w) = true \/ mkdir_fails (faults w) = false ->
      writeFile_fails (faults w) = true ->
      exists w',
        load w
        = (Throw (load_failure (save_failure (fs_error "EIO: write"))), w')
        /\ dataFile (fs w') = None
        /\ backupDir (fs w') = backupDir (fs w)
        /\ console w'
           = console w
             ++ [console_error "Error saving prompts:" (fs_error "EIO: write");
                 console_error "Error loading prompts:"
                   (save_failure (fs_error "EIO: write"))])
  /\ (dataDir (fs w) = false ->
      mkdir_fails (faults w) = true ->
      load w
      = (Throw (load_failure (fs_error "EACCES: mkdir")),
         with_console w
           [console_error "Error loading prompts:" (fs_error "EACCES: mkdir")])).
Proof.
  intros Hfile empty ld. split; [|split].
  - intros Hdir Hwrite. split.
    + unfold ld, load, save, try_catch, bind, ensureDirectoryExists, fileExists,
        writeFile, ret, written, with_fs.
      destruct w as [[d f b] fl c tk co]. simpl in *. subst f.
      destruct d; simpl.
      * rewrite Hwrite. reflexivity.
      * destruct Hdir as [Hdir|Hmk]; [discriminate|].
        rewrite Hmk. simpl. rewrite Hwrite. reflexivity.
    + intros Hread Hparse. unfold ld.
      rewrite (load_run YAML_parse YAML_stringify (written w empty) empty
                 eq_refl eq_refl Hread).
      rewrite Hparse. cbn. now rewrite with_console_nil.
  - intros Hdir Hwrite.
    unfold ld, load, save, try_catch, bind, ensureDirectoryExists, fileExists,
      writeFile, ret, log, throw, with_fs.
    destruct w as [[d f b] fl c tk co]. simpl in *. subst f.
    destruct d; simpl.
    + rewrite Hwrite. simpl. eexists. split; [reflexivity|]. simpl.
      rewrite <- app_assoc. repeat split.
    + destruct Hdir as [Hdir|Hmk]; [discriminate|].
      rewrite Hmk. simpl. rewrite Hwrite. simpl.
      eexists. split; [reflexivity|]. simpl.
      rewrite <- app_assoc. repeat split.
  - intros Hdd Hmk.
    unfold ld, load, try_catch, bind, ensureDirectoryExists, log, throw,
      with_console.
    rewrite Hdd, Hmk. reflexivity.
Qed.

Lemma load_creates_missing_file_witness :
  load Codec.parse Codec.stringify (empty_disk steady_clock)
  = (Ok [], written (empty_disk steady_clock) (Codec.stringify (VObject [])))
  /\ fst (load Codec.parse Codec.stringify
            (with_faults (empty_disk steady_clock) write_protected))
     = Throw {| message :=
                  "Failed to load prompts: Failed to save prompts: EIO: write" |}.
Proof.
  destruct (load_creates_missing_file Codec.parse Codec.stringify
              (empty_disk steady_clock) eq_refl) as [Hok _].
  destruct (load_creates_missing_file Codec.parse Codec.stringify
              (with_faults (empty_disk steady_clock) write_protected) eq_refl)
    as (_ & Hfail & _).
  split.
  - exact (proj1 (Hok (or_introl eq_refl) eq_refl)).
  - destruct (Hfail (or_introl eq_refl) eq_refl) as (w' & Hrun & _).
    now rewrite Hrun.
Defined.

(** ** backup without a data file *)

(** X12.  [backup()] when [prompts.yaml] does not exist copies nothing and
    does not read the clock: with the backup directory in place nothing
    changes at all; without it the directory is made, empty; and when it
    cannot be made [backup()] throws that error, wrapped and logged. *)
Theorem backup_without_data_file (w : World) :
  dataFile (fs w) = None ->
  (backupDir (fs w) <> None -> backup w = (Ok tt, w))
  /\ (backupDir (fs w) = None -> mkdir_fails (faults w) = false ->
      backup w
      = (Ok tt, with_fs w {| dataDir := true; dataFile := None;
                             backupDir := Some [] |}))
  /\ (backupDir (fs w) = None -> mkdir_fails (faults w) = true ->
      backup w
      = (Throw (backup_failure (fs_error "EACCES: mkdir")),
         with_console w
           [console_error "Error creating backup:" (fs_error "EACCES: mkdir")])).
Proof.
  intros Hfile.
  unfold backup, try_catch, bind, ensureDirectoryExists, fileExists, ret, log,
    throw, with_console, with_fs.
  destruct w as [[d f b] fl c tk co]. simpl in *. subst f.
  split; [|split].
  - intros Hb. destruct b as [entries|]; [reflexivity | contradiction].
  - intros -> Hmk. rewrite Hmk. reflexivity.
  - intros -> Hmk. rewrite Hmk. reflexivity.
Qed.

Lemma backup_without_data_file_witness :
  backup (empty_disk steady_clock)
  = (Ok tt,
     with_fs (empty_disk steady_clock)
       {| dataDir := true; dataFile := None; backupDir := Some [] |})
  /\ ticks (snd (backup (empty_disk steady_clock))) = 0%nat.
Proof.
  destruct (backup_without_data_file (empty_disk steady_clock) eq_refl)
    as (_ & Hmake & _).
  rewrite (Hmake eq_refl eq_refl). split; reflexivity.
Defined.

(** ** A save whose backup fails *)

(** X13.  [save()] over an existing data file whose backup cannot be made
    -- the copy is rejected, or the backup directory cannot be created --
    throws the backup's error wrapped twice, logs both, and leaves the data
    file with its old content, whether or not writing would have worked. *)
Theorem save_blocked_by_failing_backup
  (YAML_stringify : JsValue -> string)
  (w : World) (text : string) (prompts : JsObject JsValue) :
  dataDir (fs w) = true ->
  dataFile (fs w) = Some text ->
  (copyFile_fails (faults w) = true ->
   backupDir (fs w) <> None \/ mkdir_fails (faults w) = false ->
   exists w',
     save YAML_stringify prompts w
     = (Throw (save_failure (backup_failure (fs_error "EIO: copyfile"))), w')
     /\ dataFile (fs w') = Some text
     /\ backup_entries w' = backup_entries w
     /\ console w'
        = console w
          ++ [console_error "Error creating backup:" (fs_error "EIO: copyfile");
              console_error "Error saving prompts:"
                (backup_failure (fs_error "EIO: copyfile"))])
  /\ (backupDir (fs w) = None ->
      mkdir_fails (faults w) = true ->
      exists w',
        save YAML_stringify prompts w
        = (Throw (save_failure (backup_failure (fs_error "EACCES: mkdir"))), w')
        /\ fs w' = fs w
        /\ console w'
           = console w
             ++ [console_error "Error creating backup:" (fs_error "EACCES: mkdir");
                 console_error "Error saving prompts:"
                   (backup_failure (fs_error "EACCES: mkdir"))]).
Proof.
  intros Hdd Hfile.
  unfold save, backup, try_catch, bind, ensureDirectoryExists, fileExists, now,
    copyFile, ret, log, throw, with_fs, backup_entries.
  destruct w as [[d f b] fl c tk co]. simpl in *. subst d f.
  split.
  - intros Hcopy Hdir. destruct b as [entries|]; simpl.
    + rewrite Hcopy. simpl. eexists. split; [reflexivity|]. simpl.
      rewrite <- app_assoc. repeat split.
    + destruct Hdir as [Hdir|Hmk]; [now contradiction Hdir|].
      rewrite Hmk. simpl. rewrite Hcopy. simpl.
      eexists. split; [reflexivity|]. simpl.
      rewrite <- app_assoc. repeat split.
  - intros -> Hmk. simpl. rewrite Hmk. simpl.
    eexists. split; [reflexivity|]. simpl.
    rewrite <- app_assoc. repeat split.
Qed.

Lemma save_blocked_by_failing_backup_witness :
  fst (save Codec.stringify sample_mapping
         (with_faults (disk "{}" steady_clock) copy_protected))
  = Throw {| message :=
      "Failed to save prompts: Failed to create backup: EIO: copyfile" |}
  /\ dataFile (fs (snd (save Codec.stringify sample_mapping
                          (with_faults (disk "{}" steady_clock) copy_protected))))
     = Some "{}"%string.
Proof.
  destruct (save_blocked_by_failing_backup Codec.stringify
              (with_faults (disk "{}" steady_clock) copy_protected) "{}"
              sample_mapping eq_refl eq_refl) as [Hcopy _].
  destruct (Hcopy eq_refl (or_intror eq_refl)) as (w' & Hrun & Hfile & _).
  rewrite Hrun. split; [reflexivity | exact Hfile].
Defined.

(** ** The newest backup is the version a save replaced *)

Lemma obj_get_filter_key {V : Type} (f : string -> bool) (o : JsObject V)
  (k : string) :
  obj_get (filter (fun kv => f (fst kv)) o) k
  = if f k then obj_get o k else None.
Proof.
  induction o as [|[k1 v1] o IH]; simpl; [now destruct (f k)|].
  destruct (f k1) eqn:E1; simpl.
  - destruct (String.eqb_spec k k1) as [->|Hne]; [now rewrite E1 | exact IH].
  - destruct (String.eqb_spec k k1) as [->|Hne]; [now rewrite IH, E1 | exact IH].
Qed.

Lemma obj_get_prune_kept (entries : JsObject string) (k : string) :
  In k (obj_keys (prune entries)) ->
  obj_get (prune entries) k = obj_get entries k.
Proof.
  unfold prune. rewrite fold_obj_delete.
  rewrite (obj_keys_filter (fun k => negb (mem k (doomed (obj_keys entries))))).
  intros Hin. apply filter_In in Hin as [_ Hk].
  rewrite (obj_get_filter_key
             (fun k => negb (mem k (doomed (obj_keys entries))))).
  now rewrite Hk.
Qed.

Lemma latest_is_head (name x : string) (rest : list string) :
  StronglySorted (fun a b => str_le b a) (x :: rest) ->
  In name (x :: rest) ->
  (forall k, In k (x :: rest) -> k = name \/ str_lt k name) ->
  x = name.
Proof.
  intros Hs Hin Hmax. apply StronglySorted_inv in Hs as [_ Hall].
  destruct Hin as [Hx|Hrest]; [exact Hx|].
  rewrite Forall_forall in Hall. specialize (Hall name Hrest).
  destruct (Hmax x (or_introl eq_refl)) as [Hx|Hlt]; [exact Hx|].
  exfalso. exact (str_lt_irrefl x (str_lt_le_trans x name x Hlt Hall)).
Qed.

(** X14.  [save()] over an existing data file, on a disk without faults,
    when the clock reading gives a backup name later than every backup
    already there: the save completes, the data file holds the new document,
    and the backup directory holds the replaced content under the new name,
    which is the latest backup; the number of backups grows by one, up to
    10. *)
Theorem save_backs_up_replaced_version
  (YAML_stringify : JsValue -> string)
  (w : World) (text : string) (prompts : JsObject JsValue) :
  healthy w ->
  dataDir (fs w) = true ->
  dataFile (fs w) = Some text ->
  NoDup (obj_keys (backup_entries w)) ->
  let name := backupFileName (clock w (ticks w)) in
  (forall k, In k (backup_names (backup_entries w)) -> str_lt k name) ->
  exists w',
    save YAML_stringify prompts w = (Ok tt, w')
    /\ dataFile (fs w') = Some (YAML_stringify (VObject prompts))
    /\ obj_get (backup_entries w') name = Some text
    /\ (forall k, In k (backup_names (backup_entries w')) ->
          k = name \/ str_lt k name)
    /\ List.length (backup_names (backup_entries w'))
       = Nat.min 10 (Datatypes.S (List.length (backup_names (backup_entries w)))).
Proof.
  intros ((Hmk & Hread & Hwrite & Hcopy) & Hreaddir & Hunlink)
         Hdd Hfile Hnd name Hlater.
  set (entries := backup_entries w) in *.
  set (copied := obj_set entries name text).
  assert (Hname : is_backup_name name = true)
    by apply backupFileName_is_backup_name.
  assert (Hfresh : obj_get entries name = None).
  { apply obj_get_None_iff. intros Hin.
    apply (str_lt_irrefl name), Hlater. unfold backup_names.
    apply filter_In. now split. }
  assert (Hkeys : obj_keys copied = obj_keys entries ++ [name]).
  { unfold copied. rewrite (obj_set_fresh _ _ _ Hfresh).
    unfold obj_keys. now rewrite map_app. }
  assert (Hnames : backup_names copied = backup_names entries ++ [name]).
  { unfold backup_names. rewrite Hkeys, filter_app. simpl. now rewrite Hname. }
  assert (Hndc : NoDup (obj_keys copied)) by now apply obj_set_keys_NoDup.
  assert (Hclean : cleanupOldBackups (after_copy w text)
                   = (Ok tt, set_backups (after_copy w text) (prune copied))).
  { apply cleanupOldBackups_run; auto. }
  assert (Hmax : forall k, In k (backup_names copied) ->
                           k = name \/ str_lt k name).
  { intros k Hk. rewrite Hnames in Hk. apply in_app_or in Hk as [Hk|[<-|[]]];
      [right; now apply Hlater | now left]. }
  assert (Hkept : In name (backup_names (prune copied))).
  { apply (Permutation_in _ (Permutation_sym (prune_keeps_latest copied Hndc))).
    pose proof (latest_first_sorted copied) as Hs.
    pose proof (latest_first_perm copied) as Hperm.
    assert (Hin : In name (latest_first copied)).
    { apply (Permutation_in _ (Permutation_sym Hperm)).
      rewrite Hnames. apply in_or_app. right. now left. }
    destruct (latest_first copied) as [|x rest] eqn:E; [contradiction|].
    assert (Hx : x = name).
    { apply (latest_is_head name x rest Hs Hin).
      intros k Hk. apply Hmax. exact (Permutation_in _ Hperm Hk). }
    subst x. simpl. now left. }
  exists (written (set_backups (after_copy w text) (prune copied))
            (YAML_stringify (VObject prompts))).
  split.
  { rewrite (save_run_existing YAML_stringify w text prompts Hdd Hfile
               (or_intror Hmk) Hcopy Hwrite).
    now rewrite Hclean. }
  split; [reflexivity|].
  change (backup_entries
            (written (set_backups (after_copy w text) (prune copied))
               (YAML_stringify (VObject prompts))))
    with (prune copied).
  split.
  { rewrite obj_get_prune_kept.
    - apply obj_get_set_same.
    - unfold backup_names in Hkept. now apply filter_In in Hkept. }
  split.
  { intros k Hk. apply Hmax. rewrite backup_names_prune in Hk.
    now apply filter_In in Hk. }
  rewrite (prune_count copied Hndc), Hnames, length_app.
  f_equal. cbn [List.length]. lia.
Qed.

Lemma save_backs_up_replaced_version_witness :
  exists w',
    save Codec.stringify sample_mapping (disk "{}" steady_clock) = (Ok tt, w')
    /\ dataFile (fs w') = Some (Codec.stringify (VObject sample_mapping))
    /\ obj_get (backup_entries w')
         "prompts-backup-2024-01-01T00-00-00-000Z.yaml" = Some "{}"%string.
Proof.
  destruct (save_backs_up_replaced_version Codec.stringify
              (disk "{}" steady_clock) "{}" sample_mapping)
    as (w' & Hrun & Hfile & Hbackup & _).
  - repeat split.
  - reflexivity.
  - reflexivity.
  - constructor.
  - intros k [].
  - exists w'. split; [exact Hrun|]. split; [exact Hfile | exact Hbackup].
Defined.

(** ** load of a document that is no mapping *)

Lemma decimal_inj (n m : N) : decimal n = decimal m -> n = m.
Proof.
  intros H. pose proof (parseInt_decimal n) as Hn.
  rewrite H, parseInt_decimal in Hn. injection Hn as Hn. lia.
Qed.

Lemma index_entries_keys (xs : list JsValue) :
  forall (i : N) (k : string),
    In k (obj_keys (index_entries i xs)) -> exists j, k = decimal j /\ (i <= j)%N.
Proof.
  induction xs as [|x xs IH]; intros i k; simpl; [contradiction|].
  intros [<-|Hin]; [exists i; split; [reflexivity | lia]|].
  destruct (IH _ _ Hin) as (j & -> & Hj). exists j. split; [reflexivity | lia].
Qed.

Lemma index_entries_NoDup (xs : list JsValue) :
  forall i : N, NoDup (obj_keys (index_entries i xs)).
Proof.
  induction xs as [|x xs IH]; intros i; simpl; constructor; [|apply IH].
  intros Hin. destruct (index_entries_keys xs _ _ Hin) as (j & Hj & Hle).
  apply decimal_inj in Hj. lia.
Qed.

(** X15.  [load()] over a readable data file whose text parses to something
    other than a mapping.  Nothing, a boolean, a number or a string -- an
    empty file among them -- loads as the empty mapping, silently.  A
    sequence loads as the mapping of its well-formed records keyed by their
    position, "0", "1", ..., with one warning for each other item.  In every
    case, a parse failure included, [load()] leaves the files as they
    are. *)
Theorem load_of_documents_that_are_no_mapping
  (YAML_parse : string -> Result JsValue) (YAML_stringify : JsValue -> string)
  (w : World) (text : string) :
  dataDir (fs w) = true ->
  dataFile (fs w) = Some text ->
  readFile_fails (faults w) = false ->
  let load := load YAML_parse YAML_stringify in
  (forall data, YAML_parse text = Ok data -> ~ is_object_value data ->
      load w = (Ok [], w))
  /\ (forall xs, YAML_parse text = Ok (VArray xs) ->
        load w
        = (Ok (filter (fun entry => isValidPrompt (snd entry)) (index_entries 0 xs)),
           with_console w
             (map skip_warning
                (filter (fun entry => negb (isValidPrompt (snd entry)))
                   (index_entries 0 xs)))))
  /\ fs (snd (load w)) = fs w
  /\ ticks (snd (load w)) = ticks w.
Proof.
  intros Hdd Hfile Hread ld. unfold ld.
  rewrite (load_run YAML_parse YAML_stringify w text Hdd Hfile Hread).
  split; [|split].
  - intros data -> Hscalar.
    assert (Hk : kept_records (or_empty data) = []
                 /\ skip_warnings (or_empty data) = []).
    { destruct data as [|[|]|z|s|xs|fields]; try (split; reflexivity);
        try (exfalso; apply Hscalar; exact I).
      - unfold or_empty, kept_records, skip_warnings. simpl.
        destruct (z =? 0) eqn:E; simpl; rewrite ?E; split; reflexivity.
      - unfold or_empty, kept_records, skip_warnings. simpl.
        destruct (String.eqb s "") eqn:E; simpl; rewrite ?E; split; reflexivity. }
    destruct Hk as [-> ->]. now rewrite with_console_nil.
  - intros xs ->. f_equal. f_equal.
    unfold or_empty, kept_records. simpl.
    apply (keep_fold_filter (index_entries 0 xs) []).
    apply index_entries_NoDup.
  - destruct (YAML_parse text); split; reflexivity.
Qed.

Definition mixed_sequence : JsValue := VArray [sample_record; VNumber 7].

(** A document that is the null value, and one that is a sequence of a
    record and a number. *)
Lemma load_of_documents_that_are_no_mapping_witness :
  load Codec.parse Codec.stringify (disk (Codec.stringify VNull) steady_clock)
  = (Ok [], disk (Codec.stringify VNull) steady_clock)
  /\ fst (load Codec.parse Codec.stringify
            (disk (Codec.stringify mixed_sequence) steady_clock))
     = Ok [("0"%string, sample_record)].
Proof.
  assert (Hnull : Codec.parse (Codec.stringify VNull) = Ok VNull)
    by (vm_compute; reflexivity).
  assert (Hseq : Codec.parse (Codec.stringify mixed_sequence)
                 = Ok (VArray [sample_record; VNumber 7]))
    by (vm_compute; reflexivity).
  destruct (load_of_documents_that_are_no_mapping
              Codec.parse Codec.stringify
              (disk (Codec.stringify VNull) steady_clock)
              (Codec.stringify VNull) eq_refl eq_refl eq_refl)
    as (Hscalar & _).
  destruct (load_of_documents_that_are_no_mapping
              Codec.parse Codec.stringify
              (disk (Codec.stringify mixed_sequence) steady_clock)
              (Codec.stringify mixed_sequence) eq_refl eq_refl eq_refl)
    as (_ & Hitems & _).
  split.
  - exact (Hscalar VNull Hnull (fun H => H)).
  - rewrite (Hitems _ Hseq). reflexivity.
Defined.

End AdapterExtras.

(* ================================================================== *)
(** * The HTTP layer: error handlers and the controller *)
(* ================================================================== *)

Module ErrorHandler.
Import Js Types.

(** [interface AppError extends Error]; [app_stack] is the trace the runtime
    records when the error is made. *)
Record AppError : Type := {
  app_message : string;
  app_stack : string;
  statusCode : option Z;
  isOperational : option bool
}.

(** [ApiResponse<T>], with the [stack] the error handler adds. *)
Record ApiResponse (T : Type) : Type := {
  api_success : bool;
  api_data : option T;
  api_error : option string;
  api_message : option string;
  api_stack : option string
}.

Arguments api_success {T} _.
Arguments api_data {T} _.
Arguments api_error {T} _.
Arguments api_message {T} _.
Arguments api_stack {T} _.

(** [res.status(code).json(body)]; [res.json(body)] alone sends 200. *)
Record Response (T : Type) : Type := {
  status : Z;
  body : ApiResponse T
}.

Arguments status {T} _.
Arguments body {T} _.

(** [createAppError(message, statusCode = 500, isOperational = true)] *)
Definition createAppError (trace message : string) (statusCode : option Z)
  (isOperational : option bool) : AppError :=
  {| app_message := message;
     app_stack := trace;
     statusCode := Some (match statusCode with Some c => c | None => 500 end);
     isOperational := Some (match isOperational with
                            | Some b => b
                            | None => true
                            end) |}.



(** [notFoundHandler(req, res, next)] *)
Definition notFoundHandler {T : Type} (method path : string) : Response T :=
  {| status := 404;
     body := {| api_success := false;
                api_data := None;
                api_error := Some "Not Found";
                api_message := Some ("Cannot " ++ method ++ " " ++ path)%string;
                api_stack := None |} |}.

End ErrorHandler.

Module PromptController.
Import Js Types PromptService Aggregates ErrorHandler.

(** What a handler does with a request: send a response, or hand an error
    to [next]. *)
Inductive Outcome (T : Type) : Type :=
| Sent (response : Response T)
| Next (err : AppError).

Arguments Sent {T} _.
Arguments Next {T} _.

Definition ok_response {T : Type} (code : Z) (data : option T)
  (message : option string) : Response T :=
  {| status := code;
     body := {| api_success := true; api_data := data; api_error := None;
                api_message := message; api_stack := None |} |}.

(** The query of [GET /prompts] and [GET /prompts/search] as the controller
    receives it: [validateQuery] has turned a comma-separated [tags] text
    into an array. *)
Record Query : Type := {
  q_tags : option (list string);
  q_category : option string;
  q_title : option string;
  q_limit : option string;
  q_offset : option string
}.

(** [if (req.query.limit) filters.limit = parseInt(req.query.limit, 10)].
    A [NaN] is stored as it is; the service reads the field only through
    [filters.limit || 50] and [filters.offset || 0], where [NaN] counts as
    absent. *)
Definition parsed (text : option string) : option Z :=
  match text with
  | Some s => if truthy s
              then match parseInt s with
                   | Num z => Some z
                   | NaN => None
                   end
              else None
  | None => None
  end.

Definition given (text : option string) : option string :=
  if truthy_opt text then text else None.

Definition list_filters (query : Query) : SearchFilters :=
  {| f_tags := q_tags query;
     f_category := given (q_category query);
     f_title := given (q_title query);
     f_limit := parsed (q_limit query);
     f_offset := parsed (q_offset query) |}.

Definition search_filters (query : Query) : SearchFilters :=
  {| f_tags := q_tags query;
     f_category := given (q_category query);
     f_title := None;
     f_limit := parsed (q_limit query);
     f_offset := parsed (q_offset query) |}.

Section Handlers.
Context {S : Type} {storage : StorageProvider S}.

(** The trace of an error the service or its adapter threw. *)
Variable stack_of : Error -> string.

Definition thrown (e : Error) : AppError :=
  {| app_message := message e; app_stack := stack_of e;
     statusCode := None; isOperational := None |}.

(** [try { const a = await call; ... } catch (error) { next(error) }] *)
Definition handle {A T : Type} (call : M S A) (k : A -> Outcome T)
  : World S -> Outcome T * World S :=
  fun w => match call w with
           | (Ok a, w') => (k a, w')
           | (Throw e, w') => (Next (thrown e), w')
           end.

Definition not_found {T : Type} (trace : string) : Outcome T :=
  Next (createAppError trace "Prompt not found" (Some 404) None).

(** [uuid], [now]: what [randomUUID()] and the clock give the service;
    [trace]: the stack of the error [createAppError] makes. *)
Definition createPrompt (uuid now : string) (createRequest : CreatePromptRequest)
  : World S -> Outcome Prompt * World S :=
  handle (PromptService.createPrompt uuid now createRequest)
    (fun prompt =>
       Sent (ok_response 201 (Some prompt) (Some "Prompt created successfully"))).

Definition getPrompt (trace id : string) : World S -> Outcome Prompt * World S :=
  handle (PromptService.getPrompt id)
    (fun prompt =>
       match prompt with
       | None => not_found trace
       | Some prompt => Sent (ok_response 200 (Some prompt) None)
       end).

Definition updatePrompt (trace now id : string)
  (updateRequest : UpdatePromptRequest) : World S -> Outcome Prompt * World S :=
  handle (PromptService.updatePrompt now id updateRequest)
    (fun prompt =>
       match prompt with
       | None => not_found trace
       | Some prompt =>
           Sent (ok_response 200 (Some prompt) (Some "Prompt updated successfully"))
       end).

Definition deletePrompt (trace id : string) : World S -> Outcome unit * World S :=
  handle (PromptService.deletePrompt id)
    (fun deleted =>
       if negb deleted then not_found trace
       else Sent (ok_response 200 None (Some "Prompt deleted successfully"))).

Definition listPrompts (query : Query)
  : World S -> Outcome (PaginatedResponse Prompt) * World S :=
  handle (PromptService.listPrompts (list_filters query))
    (fun result => Sent (ok_response 200 (Some result) None)).

(** [q] is [req.query.q], which the route's schema requires. *)
Definition searchPrompts (q : string) (query : Query)
  : World S -> Outcome (PaginatedResponse Prompt) * World S :=
  handle (PromptService.searchPrompts q (search_filters query))
    (fun result => Sent (ok_response 200 (Some result) None)).

Definition getCategories : World S -> Outcome (list string) * World S :=
  handle Aggregates.getCategories
    (fun categories => Sent (ok_response 200 (Some categories) None)).

Definition getTags : World S -> Outcome (list string) * World S :=
  handle Aggregates.getTags
    (fun tags => Sent (ok_response 200 (Some tags) None)).

Definition getStats : World S -> Outcome Stats * World S :=
  handle Aggregates.getStats
    (fun stats => Sent (ok_response 200 (Some stats) None)).

End Handlers.


End PromptController.

(* ================================================================== *)
(** * What the HTTP layer answers *)
(* ================================================================== *)

Module HttpSpec.
Import Js Types PromptService JsFacts StoreSpec Aggregates.
Import ErrorHandler PromptController.



Section Runs.
Context {S : Type} {storage : StorageProvider S}.



End Runs.











End HttpSpec.

(* ================================================================== *)
(** * The query middleware: comma-separated tags *)
(* ================================================================== *)

Module Validation.
Import Js.

(** [s.trim()], on the white space of ASCII. *)
Fixpoint trimEnd (s : string) : string :=
  match s with
  | EmptyString => EmptyString
  | String c s' =>
      match trimEnd s' with
      | EmptyString => if is_space c then EmptyString else String c EmptyString
      | r => String c r
      end
  end.

Definition trim (s : string) : string := trimEnd (trimStart s).

(** A query value: a text, or an array of texts when the name is repeated. *)
Inductive QueryValue : Type :=
| QText (s : string)
| QList (xs : list string).

(** The first step of [validateQuery]:
    [if (req.query.tags && typeof req.query.tags === 'string')
       req.query.tags = req.query.tags.split(',').map(tag => tag.trim())] *)
Definition split_tags (tags : option QueryValue) : option QueryValue :=
  match tags with
  | Some (QText s) =>
      if truthy s then Some (QList (map trim (split "," s))) else tags
  | _ => tags
  end.

End Validation.

Module ValidationSpec.
Import Js JsFacts Validation.

(** [ts.join(',')] *)
Definition join_commas (ts : list string) : string := String.concat "," ts.

Lemma split_join_commas (ts : list string) :
  ts <> [] ->
  Forall (fun t => has_char "," t = false) ts ->
  split "," (join_commas ts) = ts.
Proof.
  unfold join_commas.
  induction ts as [|t ts IH]; intros Hne Hall; [contradiction|].
  apply Forall_inv in Hall as Ht'. pose proof (Forall_inv_tail Hall) as Hts.
  destruct ts as [|t' ts]; simpl.
  - now apply split_no_sep.
  - change ("," ++ String.concat "," (t' :: ts))%string
      with (String "," (String.concat "," (t' :: ts))).
    rewrite (split_app "," t _ Ht'). f_equal.
    apply IH; [discriminate | exact Hts].
Qed.

Lemma trimStart_idem (s : string) : trimStart (trimStart s) = trimStart s.
Proof.
  induction s as [|c s IH]; simpl; [reflexivity|].
  destruct (is_space c) eqn:E; [exact IH|]. simpl. now rewrite E.
Qed.

Lemma trimEnd_idem (s : string) : trimEnd (trimEnd s) = trimEnd s.
Proof.
  induction s as [|c s IH]; simpl; [reflexivity|].
  destruct (trimEnd s) as [|d r] eqn:E.
  - destruct (is_space c) eqn:Ec; simpl; [reflexivity | now rewrite Ec].
  - cbn [trimEnd] in *. rewrite IH. reflexivity.
Qed.

Lemma trimStart_trimEnd (s : string) :
  trimStart s = s -> trimStart (trimEnd s) = trimEnd s.
Proof.
  destruct s as [|c s]; [reflexivity|].
  simpl. destruct (is_space c) eqn:Ec.
  - intros H. exfalso.
    assert (Hlen : forall u, (String.length (trimStart u) <= String.length u)%nat).
    { induction u as [|d u IHu]; simpl; [lia|].
      destruct (is_space d); simpl; lia. }
    pose proof (Hlen s) as Hs. rewrite H in Hs. simpl in Hs. lia.
  - intros _. destruct (trimEnd s); simpl; now rewrite Ec.
Qed.

Lemma trim_idem (s : string) : trim (trim s) = trim s.
Proof.
  unfold trim.
  rewrite (trimStart_trimEnd (trimStart s) (trimStart_idem s)).
  apply trimEnd_idem.
Qed.

(** X19.  The query middleware turns a [tags] text into the array of its
    comma-separated pieces, each trimmed.  For any texts free of commas,
    joined by commas into a text that is not empty, the array holds those
    texts trimmed, in order; every piece of the result is its own trimmed
    form, so none starts or ends with white space.  An empty text, an array
    and an absent [tags] pass unchanged. *)
Theorem split_tags_reads_comma_separated_tags (ts : list string) :
  Forall (fun t => has_char "," t = false) ts ->
  join_commas ts <> ""%string ->
  split_tags (Some (QText (join_commas ts))) = Some (QList (map trim ts))
  /\ Forall (fun t => trim t = t) (map trim ts)
  /\ (Forall (fun t => trim t = t) ts ->
      split_tags (Some (QText (join_commas ts))) = Some (QList ts))
  /\ split_tags (Some (QText "")) = Some (QText "")
  /\ (forall xs, split_tags (Some (QList xs)) = Some (QList xs))
  /\ split_tags None = None.
Proof.
  intros Hall Hne.
  assert (Hts : ts <> []) by (intros ->; now apply Hne).
  assert (Hrun : split_tags (Some (QText (join_commas ts)))
                 = Some (QList (map trim ts))).
  { unfold split_tags, truthy.
    destruct (String.eqb_spec (join_commas ts) ""); [contradiction|].
    simpl. now rewrite (split_join_commas ts Hts Hall). }
  split; [exact Hrun|]. split.
  { apply Forall_forall. intros t Ht.
    apply in_map_iff in Ht as (t0 & <- & _). apply trim_idem. }
  split; [|repeat split].
  intros Hclean. rewrite Hrun. do 2 f_equal.
  rewrite <- (map_id ts) at 2. apply map_ext_in.
  intros t Ht. rewrite Forall_forall in Hclean. now apply Hclean.
Qed.

Lemma split_tags_reads_comma_separated_tags_witness :
  split_tags (Some (QText "javascript, python ,go"))
  = Some (QList ["javascript"; "python"; "go"]%string).
Proof.
  destruct (split_tags_reads_comma_separated_tags
              ["javascript"; " python "; "go"]%string) as (Hrun & _).
  - repeat constructor.
  - discriminate.
  - exact Hrun.
Defined.

End ValidationSpec.

(* ================================================================== *)
(** * Relevance scores of search hits *)
(* ================================================================== *)

Module RelevanceSpec.
Import Js Types PromptService JsFacts StoreSpec StoreExtras.

Definition with_title (filters : SearchFilters) (title : option string)
  : SearchFilters :=
  {| f_tags := f_tags filters; f_category := f_category filters;
     f_title := title;
     f_limit := f_limit filters; f_offset := f_offset filters |}.

Lemma score_bounds (p : Prompt) (query : string) :
  0 <= calculateRelevanceScore p query <= 21.
Proof.
  unfold calculateRelevanceScore.
  destruct (contains_ci (title p) query), (some_tag_contains_ci p query),
    (contains_ci (category p) query), (description_contains_ci p query),
    (contains_ci (content p) query); simpl; lia.
Qed.

Lemma score_positive_iff (p : Prompt) (query : string) :
  matches_query query p = true <-> 0 < calculateRelevanceScore p query.
Proof.
  unfold matches_query, calculateRelevanceScore.
  destruct (contains_ci (title p) query), (some_tag_contains_ci p query),
    (contains_ci (category p) query), (description_contains_ci p query),
    (contains_ci (content p) query); simpl; split; intros; try lia;
    try reflexivity; discriminate.
Qed.

Lemma In_slice {A : Type} (x : A) (xs : list A) (start stop : Z) :
  In x (slice xs start stop) -> In x xs.
Proof.
  unfold slice. intros H.
  rewrite <- (firstn_skipn (Z.to_nat (relative_index (Z.of_nat (List.length xs))
                                        start)) xs).
  apply in_or_app. right.
  match type of H with
  | In _ (firstn ?n ?l) => rewrite <- (firstn_skipn n l)
  end.
  apply in_or_app. now left.
Qed.

(** X20.  The relevance score of a record lies between 0 and 21, and it is
    above 0 exactly when the record matches the query.  So every record
    [searchPrompts] returns is a stored record of positive score that passes
    the category and tag filters, and a record of score 0 is never returned.
    The [title] filter plays no part in a search. *)
Theorem search_hits_have_positive_score
  {S : Type} {storage : StorageProvider S}
  (w : World S) (query : string) (filters : SearchFilters) :
  initialized (fst w) = true ->
  (forall p, 0 <= calculateRelevanceScore p query <= 21
             /\ (matches_query query p = true
                 <-> 0 < calculateRelevanceScore p query))
  /\ (forall p, In p (items_of (searchPrompts query filters w)) ->
        In p (obj_values (prompts (fst w)))
        /\ 0 < calculateRelevanceScore p query
        /\ category_ok filters p = true
        /\ tags_ok filters p = true)
  /\ (forall title,
        searchPrompts query (with_title filters title) w
        = searchPrompts query filters w).
Proof.
  intros Hi. pose proof (ensureInitialized_idle w Hi) as H.
  split; [|split].
  - intros p. split; [apply score_bounds | apply score_positive_iff].
  - intros p Hp. unfold items_of in Hp.
    rewrite (searchPrompts_run w w query filters H) in Hp.
    simpl in Hp. apply In_slice in Hp.
    apply (Permutation_in _ (sort_perm _ _)) in Hp.
    apply filter_In in Hp as [Hin Hfound].
    unfold found in Hfound. rewrite !andb_true_iff in Hfound.
    destruct Hfound as [[Hm Hc] Ht].
    split; [exact Hin|]. split; [now apply score_positive_iff|]. now split.
  - intros title.
    now rewrite !(searchPrompts_run w w query _ H).
Qed.

(** The search of the unit tests for "javascript": one hit, by its title
    and tag, of score 15. *)
Lemma search_hits_have_positive_score_witness :
  items_of (searchPrompts "javascript" no_filters (hydrated_world test_prompts))
  = [js_prompt]
  /\ calculateRelevanceScore js_prompt "javascript" = 15
  /\ 0 < calculateRelevanceScore js_prompt "javascript".
Proof.
  destruct (@search_hits_have_positive_score _ MockStorageProvider
              (hydrated_world test_prompts) "javascript" no_filters eq_refl)
    as (_ & Hhits & _).
  assert (Hrun : items_of (searchPrompts "javascript" no_filters
                             (hydrated_world test_prompts)) = [js_prompt])
    by reflexivity.
  split; [exact Hrun|]. split; [reflexivity|].
  apply (Hhits js_prompt). rewrite Hrun. now left.
Defined.

End RelevanceSpec.
